(** * Ayurvedic Pharmacy API: request validation and document access

    A shallow embedding of [schemas.py] (the Pydantic models) and of
    [main.py] (the FastAPI handlers and the seeding routine), with the
    properties of the natural-language specification stated over it.

    Conventions.
    - A Python [str] is a [string]: the bytes of its UTF-8 encoding;
      [int] is [Z];
      a [float] field is a rational [Q] (no statement below depends on
      rounding); a [datetime] is a [Z] (an instant).
    - A stored document is a Python [dict]: a [gmap string value].
    - Handlers run in a state-and-exception monad over a [World]: the
      document store, the process environment, and an oracle saying which
      store round-trips fail (and with which message). *)

From Stdlib Require Import ZArith QArith.QArith_base Ascii String List Bool Lia.
From stdpp Require Import base option list gmap strings.

Local Open Scope string_scope.
Local Open Scope list_scope.
Local Open Scope Z_scope.

(** ** Stored values and documents *)

#[warnings="-register-all"]
Inductive value : Type :=
  | VNull                      (* None *)
  | VBool (b : bool)
  | VInt (n : Z)
  | VFloat (q : Q)
  | VStr (s : string)
  | VDate (t : Z)              (* datetime *)
  | VId (oid : N)              (* the store-assigned identifier *)
  | VList (l : list value).

Abbreviation doc := (gmap string value).

Definition opt_str (o : option string) : value :=
  match o with Some s => VStr s | None => VNull end.

Definition opt_date (o : option Z) : value :=
  match o with Some t => VDate t | None => VNull end.

Definition opt_tags (o : option (list string)) : value :=
  match o with Some l => VList (map VStr l) | None => VNull end.

(** ** schemas.py: the entity records *)

Record User := {
  u_name : string;
  u_email : string;
  u_phone : option string;
  u_is_active : bool
}.

Record Product := {
  p_title : string;
  p_description : option string;
  p_price : Q;
  p_category : string;
  p_subcategory : option string;
  p_image : option string;
  p_in_stock : bool
}.

Record Review := {
  r_name : string;
  r_rating : Z;
  r_comment : string;
  r_source : option string
}.

Record Consultation := {
  c_full_name : string;
  c_email : string;
  c_phone : option string;
  c_mode : string;
  c_preferred_date : option string;
  c_message : option string;
  c_service : string
}.

Record ContactMessage := {
  m_full_name : string;
  m_email : string;
  m_topic : string;
  m_message : string;
  m_channel : option string
}.

Record BlogPost := {
  b_title : string;
  b_slug : string;
  b_category : string;
  b_excerpt : string;
  b_content : string;
  b_cover_image : option string;
  b_tags : option (list string);
  b_published_at : option Z
}.

(** The field set of a record, as the access layer stores it. *)

Definition product_fields (p : Product) : doc :=
  <["title" := VStr (p_title p)]>
  (<["description" := opt_str (p_description p)]>
  (<["price" := VFloat (p_price p)]>
  (<["category" := VStr (p_category p)]>
  (<["subcategory" := opt_str (p_subcategory p)]>
  (<["image" := opt_str (p_image p)]>
  (<["in_stock" := VBool (p_in_stock p)]> ∅)))))).

Definition review_fields (r : Review) : doc :=
  <["name" := VStr (r_name r)]>
  (<["rating" := VInt (r_rating r)]>
  (<["comment" := VStr (r_comment r)]>
  (<["source" := opt_str (r_source r)]> ∅))).

Definition consultation_fields (c : Consultation) : doc :=
  <["full_name" := VStr (c_full_name c)]>
  (<["email" := VStr (c_email c)]>
  (<["phone" := opt_str (c_phone c)]>
  (<["mode" := VStr (c_mode c)]>
  (<["preferred_date" := opt_str (c_preferred_date c)]>
  (<["message" := opt_str (c_message c)]>
  (<["service" := VStr (c_service c)]> ∅)))))).

Definition contact_fields (m : ContactMessage) : doc :=
  <["full_name" := VStr (m_full_name m)]>
  (<["email" := VStr (m_email m)]>
  (<["topic" := VStr (m_topic m)]>
  (<["message" := VStr (m_message m)]>
  (<["channel" := opt_str (m_channel m)]> ∅)))).

Definition blogpost_fields (b : BlogPost) : doc :=
  <["title" := VStr (b_title b)]>
  (<["slug" := VStr (b_slug b)]>
  (<["category" := VStr (b_category b)]>
  (<["excerpt" := VStr (b_excerpt b)]>
  (<["content" := VStr (b_content b)]>
  (<["cover_image" := opt_str (b_cover_image b)]>
  (<["tags" := opt_tags (b_tags b)]>
  (<["published_at" := opt_date (b_published_at b)]> ∅))))))).

(** ** Request validation

    A request body reaches a handler only after the framework has built
    the handler's model from it.  Per declared field, the body either
    omits the field, carries something that is not of the declared type,
    or carries a value of the declared type; the bounds, the required
    fields and the defaults below are the ones [schemas.py] declares. *)

Inductive slot (A : Type) : Type :=
  | Missing
  | Invalid
  | Given (a : A).
Arguments Missing {A}.
Arguments Invalid {A}.
Arguments Given {A} a.

Inductive constraint : Type :=
  | CMissing                   (* a required field is absent *)
  | CType                      (* not of the declared type *)
  | CGe (bound : Z)            (* ge=bound violated *)
  | CLe (bound : Z)            (* le=bound violated *)
  | CEmail.                    (* not an e-mail address *)

Record verror := { loc : string; violated : constraint }.

(** A required field: [name: T] or [Field(...)]. *)
Definition required {A} (field : string) (s : slot A) : list verror + A :=
  match s with
  | Missing => inl [ {| loc := field; violated := CMissing |} ]
  | Invalid => inl [ {| loc := field; violated := CType |} ]
  | Given a => inr a
  end.

(** A field with a default: [name: T = d] or [Field(d)]. *)
Definition optional {A} (field : string) (d : A) (s : slot A) : list verror + A :=
  match s with
  | Missing => inr d
  | Invalid => inl [ {| loc := field; violated := CType |} ]
  | Given a => inr a
  end.

Definition check {A} (field : string) (ok : A → bool) (c : constraint)
    (r : list verror + A) : list verror + A :=
  match r with
  | inr a => if ok a then inr a else inl [ {| loc := field; violated := c |} ]
  | inl e => inl e
  end.

(** Validation reports the errors of every field, in declaration order. *)
Definition errors_of {A} (r : list verror + A) : list verror :=
  match r with inl e => e | inr _ => [] end.

Record ProductPayload := {
  pp_title : slot string;
  pp_description : slot (option string);
  pp_price : slot Q;
  pp_category : slot string;
  pp_subcategory : slot (option string);
  pp_image : slot (option string);
  pp_in_stock : slot bool
}.

Definition Qge0 (q : Q) : bool := Qle_bool (0 # 1) q.

Definition validate_product (x : ProductPayload) : list verror + Product :=
  let title := required "title" (pp_title x) in
  let description := optional "description" None (pp_description x) in
  let price := check "price" Qge0 (CGe 0) (required "price" (pp_price x)) in
  let category := required "category" (pp_category x) in
  let subcategory := optional "subcategory" None (pp_subcategory x) in
  let image := optional "image" None (pp_image x) in
  let in_stock := optional "in_stock" true (pp_in_stock x) in
  match title, description, price, category, subcategory, image, in_stock with
  | inr t, inr d, inr p, inr c, inr s, inr i, inr k =>
      inr {| p_title := t; p_description := d; p_price := p; p_category := c;
             p_subcategory := s; p_image := i; p_in_stock := k |}
  | _, _, _, _, _, _, _ =>
      inl (errors_of title ++ errors_of description ++ errors_of price ++
           errors_of category ++ errors_of subcategory ++ errors_of image ++
           errors_of in_stock)
  end.

Record ReviewPayload := {
  rp_name : slot string;
  rp_rating : slot Z;
  rp_comment : slot string;
  rp_source : slot (option string)
}.

Definition validate_review (x : ReviewPayload) : list verror + Review :=
  let name := required "name" (rp_name x) in
  let rating :=
    check "rating" (λ n, n <=? 5) (CLe 5)
      (check "rating" (λ n, 1 <=? n) (CGe 1) (required "rating" (rp_rating x))) in
  let comment := required "comment" (rp_comment x) in
  let source := optional "source" (Some "website") (rp_source x) in
  match name, rating, comment, source with
  | inr n, inr r, inr c, inr s =>
      inr {| r_name := n; r_rating := r; r_comment := c; r_source := s |}
  | _, _, _, _ =>
      inl (errors_of name ++ errors_of rating ++ errors_of comment ++
           errors_of source)
  end.

Record BlogPostPayload := {
  bp_title : slot string;
  bp_slug : slot string;
  bp_category : slot string;
  bp_excerpt : slot string;
  bp_content : slot string;
  bp_cover_image : slot (option string);
  bp_tags : slot (option (list string));
  bp_published_at : slot (option Z)
}.

Definition validate_blogpost (x : BlogPostPayload) : list verror + BlogPost :=
  let title := required "title" (bp_title x) in
  let slug := required "slug" (bp_slug x) in
  let category := required "category" (bp_category x) in
  let excerpt := required "excerpt" (bp_excerpt x) in
  let content := required "content" (bp_content x) in
  let cover_image := optional "cover_image" None (bp_cover_image x) in
  let tags := optional "tags" None (bp_tags x) in
  let published_at := optional "published_at" None (bp_published_at x) in
  match title, slug, category, excerpt, content, cover_image, tags, published_at with
  | inr t, inr s, inr c, inr e, inr n, inr i, inr g, inr p =>
      inr {| b_title := t; b_slug := s; b_category := c; b_excerpt := e;
             b_content := n; b_cover_image := i; b_tags := g;
             b_published_at := p |}
  | _, _, _, _, _, _, _, _ =>
      inl (errors_of title ++ errors_of slug ++ errors_of category ++
           errors_of excerpt ++ errors_of content ++ errors_of cover_image ++
           errors_of tags ++ errors_of published_at)
  end.

Record ConsultationPayload := {
  cp_full_name : slot string;
  cp_email : slot string;
  cp_phone : slot (option string);
  cp_mode : slot string;
  cp_preferred_date : slot (option string);
  cp_message : slot (option string);
  cp_service : slot string
}.

Record UserPayload := {
  up_name : slot string;
  up_email : slot string;
  up_phone : slot (option string);
  up_is_active : slot bool
}.

Record ContactPayload := {
  mp_full_name : slot string;
  mp_email : slot string;
  mp_topic : slot string;
  mp_message : slot string;
  mp_channel : slot (option string)
}.

(** An [EmailStr] field: the value the record holds is the address as the
    e-mail library returns it (normalised), not the one of the body. *)
Definition check_email (field : string) (validate : string → option string)
    (r : list verror + string) : list verror + string :=
  match r with
  | inr a =>
      match validate a with
      | Some normalised => inr normalised
      | None => inl [ {| loc := field; violated := CEmail |} ]
      end
  | inl e => inl e
  end.

Section Email.

(** [EmailStr]: the validation of the e-mail library, left abstract: the
    normalised address, or [None] when the address is not well formed. *)
Variable valid_email : string → option string.

(** [User] is declared but no endpoint takes one. *)
Definition validate_user (x : UserPayload) : list verror + User :=
  let name := required "name" (up_name x) in
  let email := check_email "email" valid_email (required "email" (up_email x)) in
  let phone := optional "phone" None (up_phone x) in
  let is_active := optional "is_active" true (up_is_active x) in
  match name, email, phone, is_active with
  | inr n, inr e, inr p, inr a =>
      inr {| u_name := n; u_email := e; u_phone := p; u_is_active := a |}
  | _, _, _, _ =>
      inl (errors_of name ++ errors_of email ++ errors_of phone ++
           errors_of is_active)
  end.

Definition validate_consultation (x : ConsultationPayload)
    : list verror + Consultation :=
  let full_name := required "full_name" (cp_full_name x) in
  let email := check_email "email" valid_email (required "email" (cp_email x)) in
  let phone := optional "phone" None (cp_phone x) in
  let mode := required "mode" (cp_mode x) in
  let preferred_date := optional "preferred_date" None (cp_preferred_date x) in
  let message := optional "message" None (cp_message x) in
  let service := optional "service" "ayurvedic" (cp_service x) in
  match full_name, email, phone, mode, preferred_date, message, service with
  | inr f, inr e, inr p, inr m, inr d, inr g, inr s =>
      inr {| c_full_name := f; c_email := e; c_phone := p; c_mode := m;
             c_preferred_date := d; c_message := g; c_service := s |}
  | _, _, _, _, _, _, _ =>
      inl (errors_of full_name ++ errors_of email ++ errors_of phone ++
           errors_of mode ++ errors_of preferred_date ++ errors_of message ++
           errors_of service)
  end.

Definition validate_contact (x : ContactPayload) : list verror + ContactMessage :=
  let full_name := required "full_name" (mp_full_name x) in
  let email := check_email "email" valid_email (required "email" (mp_email x)) in
  let topic := required "topic" (mp_topic x) in
  let message := required "message" (mp_message x) in
  let channel := optional "channel" (Some "general") (mp_channel x) in
  match full_name, email, topic, message, channel with
  | inr f, inr e, inr t, inr m, inr c =>
      inr {| m_full_name := f; m_email := e; m_topic := t; m_message := m;
             m_channel := c |}
  | _, _, _, _, _ =>
      inl (errors_of full_name ++ errors_of email ++ errors_of topic ++
           errors_of message ++ errors_of channel)
  end.

End Email.

(** ** The world a handler runs in *)

Record Store := {
  colls : gmap string (list doc);   (* collection name -> its documents *)
  next_id : N                       (* the next identifier the store assigns *)
}.

(** What lies outside the repository: the process environment, the clock,
    the store's availability, the text rendering of a value ([str]) and
    the store's regular-expression engine beyond the fragment modelled in
    [compile_fragment]. *)
Record Env := {
  db_name : option string;          (* [db]: [None] when not configured *)
  database_url : bool;              (* is DATABASE_URL set and non-empty *)
  fault : nat → option string;      (* does the n-th round-trip fail, and how *)
  utcnow : Z;                       (* [datetime.utcnow()] *)
  py_str : value → string;          (* [str(v)] *)
  regex_ext : string → string → string + (string → bool)
}.

Record World := {
  env : Env;
  store : Store;
  trips : nat                       (* round-trips to the store so far *)
}.

Definition docs_of (w : World) (coll : string) : list doc :=
  default [] (colls (store w) !! coll).

(** *** A state-and-exception monad *)

Inductive result (A : Type) : Type :=
  | Ok (a : A)
  | Raise (msg : string).           (* an exception [e], as [str(e)] *)
Arguments Ok {A} a.
Arguments Raise {A} msg.

Definition M (A : Type) : Type := World → result A * World.

Definition ret {A} (a : A) : M A := λ w, (Ok a, w).

Definition bind {A B} (m : M A) (k : A → M B) : M B := λ w,
  match m w with
  | (Ok a, w') => k a w'
  | (Raise e, w') => (Raise e, w')
  end.

Definition try_except {A} (m : M A) (handler : string → M A) : M A := λ w,
  match m w with
  | (Ok a, w') => (Ok a, w')
  | (Raise e, w') => handler e w'
  end.

Notation "'let*' x ':=' m 'in' k" := (bind m (λ x, k))
  (at level 10, x name, m at level 100, k at level 200, only parsing).

(** [for x in l: body(x)] *)
Fixpoint for_each {A} (l : list A) (body : A → M unit) : M unit :=
  match l with
  | [] => ret tt
  | x :: l' => let* _ := body x in for_each l' body
  end.

(** ** The store's filter language, as far as the handlers use it *)

#[warnings="-register-all"]
Inductive query : Type :=
  | QEq (field : string) (v : string)          (* {field: v} *)
  | QRegex (field pattern options : string)    (* {field: {"$regex": .., "$options": ..}} *)
  | QOr (alts : list query).                   (* {"$or": [{..}, {..}]} *)

(** *** Regular expressions: the fragment of literals and [.] *)

Inductive atom : Type :=
  | Lit (c : ascii)
  | Dot.

Definition is_meta (c : ascii) : bool :=
  existsb (Ascii.eqb c) (list_ascii_of_string "\^$.|?*+()[{").

Fixpoint compile_fragment (p : string) : option (list atom) :=
  match p with
  | EmptyString => Some []
  | String c rest =>
      if Ascii.eqb c "." then cons Dot <$> compile_fragment rest
      else if is_meta c then None
      else cons (Lit c) <$> compile_fragment rest
  end.

Definition lower (c : ascii) : ascii :=
  let n := nat_of_ascii c in
  if ((65 <=? n) && (n <=? 90))%nat then ascii_of_nat (n + 32) else c.

Fixpoint lower_str (s : string) : string :=
  match s with
  | EmptyString => EmptyString
  | String c s' => String (lower c) (lower_str s')
  end.

Definition atom_matches (ci : bool) (a : atom) (c : ascii) : bool :=
  match a with
  | Lit x => if ci then Ascii.eqb (lower x) (lower c) else Ascii.eqb x c
  | Dot => negb (Ascii.eqb c "010")
  end.

Fixpoint match_here (ci : bool) (atoms : list atom) (s : string) : bool :=
  match atoms with
  | [] => true
  | a :: atoms' =>
      match s with
      | EmptyString => false
      | String c s' => atom_matches ci a c && match_here ci atoms' s'
      end
  end.

(** An unanchored search: the pattern may match anywhere in the subject. *)
Fixpoint search (ci : bool) (atoms : list atom) (s : string) : bool :=
  match_here ci atoms s ||
  match s with
  | EmptyString => false
  | String _ s' => search ci atoms s'
  end.

(** Modelled from the spec: the store's evaluation of a [$regex] clause,
    which is not code of this repository.  Patterns built from literal
    characters and [.] are compiled here (option [i]: letters compare
    without case); every other pattern is handed to [regex_ext], which
    either rejects it with a message or yields its matcher. *)
Definition regex_compile (e : Env) (pattern options : string)
    : string + (string → bool) :=
  match compile_fragment pattern with
  | Some atoms =>
      if String.eqb options "i" then inr (search true atoms)
      else if String.eqb options "" then inr (search false atoms)
      else regex_ext e pattern options
  | None => regex_ext e pattern options
  end.

Definition str_field (d : doc) (field : string) : option string :=
  match d !! field with
  | Some (VStr s) => Some s
  | _ => None
  end.

(** Modelled from the spec: filter semantics of the store ("exact match on
    declared scalar fields", "case-insensitive substring match, logically
    OR'd"); the filter is compiled once, a rejected pattern fails the
    whole query. *)
Fixpoint compile_query (e : Env) (q : query) : string + (doc → bool) :=
  match q with
  | QEq field v =>
      inr (λ d, match str_field d field with
                | Some s => String.eqb s v
                | None => false
                end)
  | QRegex field pattern options =>
      match regex_compile e pattern options with
      | inl msg => inl msg
      | inr m => inr (λ d, match str_field d field with
                           | Some s => m s
                           | None => false
                           end)
      end
  | QOr alts =>
      (fix any (l : list query) : string + (doc → bool) :=
         match l with
         | [] => inr (λ _, false)
         | a :: l' =>
             match compile_query e a, any l' with
             | inl msg, _ => inl msg
             | inr _, inl msg => inl msg
             | inr f, inr g => inr (λ d, f d || g d)
             end
         end) alts
  end.

(** A filter is a dict: the conjunction of its entries. *)
Fixpoint compile_filter (e : Env) (filt : list query) : string + (doc → bool) :=
  match filt with
  | [] => inr (λ _, true)
  | q :: filt' =>
      match compile_query e q, compile_filter e filt' with
      | inl msg, _ => inl msg
      | inr _, inl msg => inl msg
      | inr f, inr g => inr (λ d, f d && g d)
      end
  end.

(** ** The document access layer *)

Definition tick (w : World) : World :=
  {| env := env w; store := store w; trips := S (trips w) |}.

(** One round-trip to the store.  Without a store handle nothing is sent;
    otherwise the oracle decides whether the store answers. *)
Definition round_trip {A} (no_db : string)
    (op : Env → Store → result A * Store) : M A := λ w,
  match db_name (env w) with
  | None => (Raise no_db, w)
  | Some _ =>
      match fault (env w) (trips w) with
      | Some msg => (Raise msg, tick w)
      | None =>
          let '(r, s) := op (env w) (store w) in
          (r, {| env := env w; store := s; trips := S (trips w) |})
      end
  end.

Definition coll_of (s : Store) (coll : string) : list doc :=
  default [] (colls s !! coll).

Definition not_available : string := "Database not available".

(** Modelled from the spec: [create_document] of [database.py], which is
    not among the sources: "inserts the record's field set into the named
    collection; returns a newly assigned unique identifier", the
    identifier being "exposed to callers as an opaque string"; "fails
    with StorageError if the underlying store is unreachable or rejects
    the write". *)
Definition create_document (coll : string) (fields : doc) : M string :=
  round_trip not_available (λ e s,
    let oid := next_id s in
    (Ok (py_str e (VId oid)),
     {| colls := <[coll := coll_of s coll ++ [<["_id" := VId oid]> fields]]> (colls s);
        next_id := N.succ oid |})).

Definition cap {A} (limit : option Z) (l : list A) : list A :=
  match limit with
  | Some n => take (Z.to_nat n) l
  | None => l
  end.

(** Modelled from the spec: [get_documents] of [database.py], which is not
    among the sources: "returns a sequence of records matching filter",
    "results capped at limit when supplied"; "fails with StorageError on
    connectivity failure". *)
Definition get_documents (coll : string) (filt : list query) (limit : option Z)
    : M (list doc) :=
  round_trip not_available (λ e s,
    match compile_filter e filt with
    | inl msg => (Raise msg, s)
    | inr f => (Ok (cap limit (List.filter f (coll_of s coll))), s)
    end).

(** [db[coll].count_documents({})]; subscripting [db] raises when it is
    [None]. *)
Definition count_documents (coll : string) : M Z :=
  round_trip "'NoneType' object is not subscriptable" (λ _ s,
    (Ok (Z.of_nat (length (coll_of s coll))), s)).

(** [db.list_collection_names()] *)
Definition list_collection_names : M (list string) :=
  round_trip "'NoneType' object has no attribute 'list_collection_names'"
    (λ _ s, (Ok (elements (dom (colls s))), s)).

(** ** main.py *)

Record TestReport := {
  backend : string;
  database : string;
  t_database_url : string;
  database_name : string;
  connection_status : string;
  collections : list string
}.

Inductive body : Type :=
  | BMessage (message : string)
  | BTest (report : TestReport)
  | BCategories (table : list (string * list string))
  | BServices (table : list (string * (string * list string)))
  | BItems (items : list doc)
  | BCreated (id : string)                   (* {"_id": id} *)
  | BReceived (id : string) (status : string).

Inductive response : Type :=
  | R200 (b : body)
  | R422 (detail : list verror)              (* the body failed validation *)
  | R500 (detail : string).                  (* HTTPException(status_code=500) *)

(** [s[:n]]: the first [n] characters of [s].  A character starts at every
    byte that is not a UTF-8 continuation byte (10xxxxxx). *)
Definition is_continuation (c : ascii) : bool :=
  let b := nat_of_ascii c in ((128 <=? b) && (b <? 192))%nat.

Fixpoint take_chars (n : nat) (s : string) : string :=
  match s with
  | EmptyString => EmptyString
  | String c s' =>
      if is_continuation c then String c (take_chars n s')
      else match n with
           | O => EmptyString
           | S n' => String c (take_chars n' s')
           end
  end.

(** [len(s)]: the number of characters of [s]. *)
Fixpoint char_count (s : string) : nat :=
  match s with
  | EmptyString => O
  | String c s' => if is_continuation c then char_count s' else S (char_count s')
  end.

Definition read_root : M response :=
  ret (R200 (BMessage "Ayurvedic Pharmacy API running")).

Definition test_database : M response := λ w,
  match db_name (env w) with
  | None =>
      (Ok (R200 (BTest
         {| backend := "✅ Running";
            database := "❌ Not Available";
            t_database_url := "❌ Not Set";
            database_name := "❌ Not Set";
            connection_status := "Not Connected";
            collections := [] |})), w)
  | Some name =>
      let url := if database_url (env w) then "✅ Set" else "❌ Not Set" in
      match list_collection_names w with
      | (Ok names, w') =>
          (Ok (R200 (BTest
             {| backend := "✅ Running";
                database := "✅ Connected & Working";
                t_database_url := url;
                database_name := name;
                connection_status := "Connected";
                collections := names |})), w')
      | (Raise e, w') =>
          (Ok (R200 (BTest
             {| backend := "✅ Running";
                database := String.append "⚠️ Connected but Error: " (take_chars 80 e);
                t_database_url := url;
                database_name := name;
                connection_status := "Connected";
                collections := [] |})), w')
      end
  end.

Definition AYURVEDIC_SUBCATEGORIES : list string :=
  ["Cosmetics"; "Oils"; "Balms"; "Arishta & Asava"; "Kwatha & Kashaya";
   "Powders"; "Capsules & Tablets"].

Definition DISEASE_SUBCATEGORIES : list string :=
  ["Joint & Muscle Pain"; "Digestive Disorders"; "Respiratory Health";
   "Skin Conditions"; "Women's Health"; "Stress & Sleep"; "Diabetes Support";
   "Immunity Boosters"; "Hair & Scalp Problems"].

Definition TRADITIONAL_SUBCATEGORIES : list string :=
  ["Puja Items"; "Pottery Items"; "Thovil Badu"; "Gift Packs/Herbal Kits"].

Definition PRODUCT_CATEGORIES : list (string * list string) :=
  [("Ayurvedic Products", AYURVEDIC_SUBCATEGORIES);
   ("Disease-Related Products", DISEASE_SUBCATEGORIES);
   ("Traditional Products", TRADITIONAL_SUBCATEGORIES)].

Definition sample_product (title description : string) (price : Q)
    (category subcategory : string) : Product :=
  {| p_title := title; p_description := Some description; p_price := price;
     p_category := category; p_subcategory := Some subcategory;
     p_image := None; p_in_stock := true |}.

Definition samples : list Product :=
  [sample_product "Neem Herbal Oil" "Cold-pressed neem oil for skin and scalp."
     (1299 # 100) "Ayurvedic Products" "Oils";
   sample_product "Ashwagandha Capsules" "Stress relief and vitality support."
     (185 # 10) "Ayurvedic Products" "Capsules & Tablets";
   sample_product "DigestEase Arishta" "Supports digestive comfort."
     (14 # 1) "Ayurvedic Products" "Arishta & Asava";
   sample_product "Copper Puja Kalash" "Traditional copper pot for rituals."
     (24 # 1) "Traditional Products" "Puja Items";
   sample_product "Joint Relief Balm" "Warming balm for joints and muscles."
     (75 # 10) "Disease-Related Products" "Joint & Muscle Pain"].

Definition sample_review (name : string) (rating : Z) (comment : string) : Review :=
  {| r_name := name; r_rating := rating; r_comment := comment;
     r_source := Some "website" |}.

Definition sample_reviews : list Review :=
  [sample_review "Anika" 5 "Amazing quality and very helpful staff!";
   sample_review "Ravi" 4 "Consultation was insightful and products worked well."].

Definition sample_post (title slug category excerpt content : string) : BlogPost :=
  {| b_title := title; b_slug := slug; b_category := category;
     b_excerpt := excerpt; b_content := content; b_cover_image := None;
     b_tags := None; b_published_at := None |}.

Definition sample_posts : list BlogPost :=
  [sample_post "Herbal Wisdom: Neem" "herbal-wisdom-neem" "Herbal Wisdom"
     "Discover the multifaceted benefits of Neem." "Long form content about Neem...";
   sample_post "Healing Through Ayurveda: Digestive Balance"
     "healing-ayurveda-digestive" "Healing Through Ayurveda"
     "Rekindle your digestive fire." "Content on Agni and digestion...";
   sample_post "Power of Nature: Ashwagandha" "power-of-nature-ashwagandha"
     "Power of Nature" "Ashwagandha for stress relief."
     "Content about adaptogens...";
   sample_post "Ayurveda for Daily Life: Morning Rituals"
     "ayurveda-daily-life-morning" "Ayurveda for Daily Life"
     "Simple practices to start your day." "Dinacharya overview..."].

(** The body of the [try] block of [ensure_seed_data]. *)
Definition seed_body : M unit :=
  let* n := count_documents "product" in
  let* _ := (if n =? 0
             then for_each samples (λ p,
                    let* _ := create_document "product" (product_fields p) in ret tt)
             else ret tt) in
  let* n := count_documents "review" in
  let* _ := (if n =? 0
             then for_each sample_reviews (λ r,
                    let* _ := create_document "review" (review_fields r) in ret tt)
             else ret tt) in
  let* n := count_documents "blogpost" in
  if n =? 0
  then for_each sample_posts (λ b,
         let* _ := create_document "blogpost" (blogpost_fields b) in ret tt)
  else ret tt.

(** [except Exception: pass] *)
Definition ensure_seed_data : M unit :=
  try_except seed_body (λ _, ret tt).

Definition on_startup : M unit := ensure_seed_data.

(** [if s:] on an [Optional[str]]: [None] and the empty string are false. *)
Definition truthy (o : option string) : option string :=
  match o with
  | Some EmptyString => None
  | _ => o
  end.

(** [it["_id"] = str(it.get("_id"))] *)
Definition with_str_id (e : Env) (it : doc) : doc :=
  <["_id" := VStr (py_str e (default VNull (it !! "_id")))]> it.

Definition stringify_ids (items : list doc) : M (list doc) := λ w,
  (Ok (map (with_str_id (env w)) items), w).

(** The filter [list_products] builds from its query parameters. *)
Definition product_filter (q category subcategory : option string) : list query :=
  match truthy category with Some c => [QEq "category" c] | None => [] end ++
  match truthy subcategory with Some s => [QEq "subcategory" s] | None => [] end ++
  match truthy q with
  | Some q => [QOr [QRegex "title" q "i"; QRegex "description" q "i"]]
  | None => []
  end.

(** The [try] statement of [list_products], after the call to the seeding
    routine. *)
Definition list_products_query (q category subcategory : option string) : M response :=
  try_except
    (let* items := get_documents "product" (product_filter q category subcategory) None in
     let* items := stringify_ids items in
     ret (R200 (BItems items)))
    (λ e, ret (R500 e)).

Definition list_products (q category subcategory : option string) : M response :=
  let* _ := ensure_seed_data in
  list_products_query q category subcategory.

Definition create_product (product : Product) : M response :=
  try_except
    (let* id := create_document "product" (product_fields product) in
     ret (R200 (BCreated id)))
    (λ e, ret (R500 e)).

Definition get_reviews (limit : Z) : M response :=
  try_except
    (let* reviews := get_documents "review" [] (Some limit) in
     let* reviews := stringify_ids reviews in
     ret (R200 (BItems reviews)))
    (λ e, ret (R500 e)).

Definition add_review (review : Review) : M response :=
  try_except
    (let* id := create_document "review" (review_fields review) in
     ret (R200 (BCreated id)))
    (λ e, ret (R500 e)).

Definition BLOG_CATEGORIES : list string :=
  ["Herbal Wisdom"; "Healing Through Ayurveda"; "Power of Nature";
   "Ayurveda for Daily Life"].

Definition list_blog (category : option string) : M response :=
  let* _ := ensure_seed_data in
  try_except
    (let filt := match truthy category with
                 | Some c => [QEq "category" c]
                 | None => []
                 end in
     let* posts := get_documents "blogpost" filt None in
     let* posts := stringify_ids posts in
     ret (R200 (BItems posts)))
    (λ e, ret (R500 e)).

Definition now : M Z := λ w, (Ok (utcnow (env w)), w).

Definition set_published_at (post : BlogPost) (t : Z) : BlogPost :=
  {| b_title := b_title post; b_slug := b_slug post; b_category := b_category post;
     b_excerpt := b_excerpt post; b_content := b_content post;
     b_cover_image := b_cover_image post; b_tags := b_tags post;
     b_published_at := Some t |}.

Definition create_blog (post : BlogPost) : M response :=
  try_except
    (let* post := match b_published_at post with
                  | None => let* t := now in ret (set_published_at post t)
                  | Some _ => ret post
                  end in
     let* id := create_document "blogpost" (blogpost_fields post) in
     ret (R200 (BCreated id)))
    (λ e, ret (R500 e)).

Definition SERVICES_INFO : list (string * (string * list string)) :=
  [("ayurvedic",
    ("Ayurvedic Consultations",
     ["Doctor consultations (in-person/online)";
      "Prescription-based product supply"]));
   ("nakshatra",
    ("Nakshatra Services",
     ["Personal horoscope reading"; "Wedding/event calculations";
      "Healing rituals"; "Newborn name selection";
      "Auspicious time calculation"; "Customized ritual items"]))].

Definition get_categories : M response := ret (R200 (BCategories PRODUCT_CATEGORIES)).

Definition get_services : M response := ret (R200 (BServices SERVICES_INFO)).

Definition book_consultation (data : Consultation) : M response :=
  try_except
    (let* id := create_document "consultation" (consultation_fields data) in
     ret (R200 (BReceived id "received")))
    (λ e, ret (R500 e)).

Definition contact (data : ContactMessage) : M response :=
  try_except
    (let* id := create_document "contactmessage" (contact_fields data) in
     ret (R200 (BReceived id "received")))
    (λ e, ret (R500 e)).

(** *** The HTTP surface

    A [POST] body is validated against the handler's model first, and so
    is the [limit: int = 50] query parameter of [get_reviews]; the handler
    runs only on validated input, otherwise the framework answers with the
    validation errors. *)

Definition with_body {P A} (validate : P → list verror + A)
    (handler : A → M response) (payload : P) : M response :=
  match validate payload with
  | inl errs => ret (R422 errs)
  | inr a => handler a
  end.

Inductive request : Type :=
  | GET_root
  | GET_test
  | GET_categories
  | GET_products (q category subcategory : option string)
  | POST_products (payload : ProductPayload)
  | GET_reviews (limit : slot Z)
  | POST_reviews (payload : ReviewPayload)
  | GET_blog (category : option string)
  | POST_blog (payload : BlogPostPayload)
  | GET_services
  | POST_consultations (payload : ConsultationPayload)
  | POST_contact (payload : ContactPayload).

Section Api.

Variable valid_email : string → option string.

Definition handle (r : request) : M response :=
  match r with
  | GET_root => read_root
  | GET_test => test_database
  | GET_categories => get_categories
  | GET_products q category subcategory => list_products q category subcategory
  | POST_products payload => with_body validate_product create_product payload
  | GET_reviews limit => with_body (optional "limit" 50) get_reviews limit
  | POST_reviews payload => with_body validate_review add_review payload
  | GET_blog category => list_blog category
  | POST_blog payload => with_body validate_blogpost create_blog payload
  | GET_services => get_services
  | POST_consultations payload =>
      with_body (validate_consultation valid_email) book_consultation payload
  | POST_contact payload =>
      with_body (validate_contact valid_email) contact payload
  end.

End Api.

(** ** Concrete worlds for the examples *)

Definition hex_digit (n : N) : ascii :=
  nth (N.to_nat (n mod 16)) (list_ascii_of_string "0123456789abcdef") "0"%char.

(** An identifier as 24 hexadecimal digits. *)
Definition oid_str (n : N) : string :=
  string_of_list_ascii
    (map (λ i, hex_digit (n / 16 ^ N.of_nat i)) (rev (seq 0 24))).

Definition plain_str (v : value) : string :=
  match v with
  | VId n => oid_str n
  | VStr s => s
  | VBool true => "True"
  | VBool false => "False"
  | _ => "None"
  end.

Definition no_ext (pattern options : string) : string + (string → bool) :=
  inl (String.append "Regular expression is invalid: " pattern).

Definition env_of (name : option string) (f : nat → option string) : Env :=
  {| db_name := name; database_url := true; fault := f; utcnow := 1700000000;
     py_str := plain_str; regex_ext := no_ext |}.

Definition empty_store : Store := {| colls := ∅; next_id := 1 |}.

Definition world_of (name : option string) (f : nat → option string)
    (s : Store) : World :=
  {| env := env_of name f; store := s; trips := 0 |}.

Definition healthy : nat → option string := λ _, None.

(** A store that answers every round-trip. *)
Definition fresh : World := world_of (Some "pharmacy") healthy empty_store.

(** The world after the seeding routine has run on [fresh]. *)
Definition seeded : World := (ensure_seed_data fresh).2.

(** ** Notions used in the statements *)

(** [extends w w']: same environment, and every collection of [w'] starts
    with the documents it had in [w], in the same order. *)
Definition extends (w w' : World) : Prop :=
  env w' = env w ∧ ∀ coll, docs_of w coll `prefix_of` docs_of w' coll.

Definition monotone {A} (m : M A) : Prop := ∀ w, extends w (m w).2.

(** The error with which the next call into [database.py] fails at [w],
    if it fails: there is no store handle, or the store does not answer. *)
Definition store_error (w : World) : option string :=
  match db_name (env w) with
  | None => Some not_available
  | Some _ => fault (env w) (trips w)
  end.




(** [q] occurs in [s] when letter case is ignored. *)
Definition ci_substring (q s : string) : Prop :=
  ∃ pre post, lower_str s = String.append pre (String.append (lower_str q) post).

(** The string field [field] of [d] contains [q], ignoring case. *)
Definition field_contains (d : doc) (field q : string) : Prop :=
  ∃ s, str_field d field = Some s ∧ ci_substring q s.

(** A pattern without regular-expression metacharacters. *)
Definition literal (q : string) : Prop :=
  Forall (λ c, is_meta c = false) (list_ascii_of_string q).

(** The store answers the first two round-trips and fails the third. *)
Definition flaky : World :=
  world_of (Some "pharmacy")
    (λ n, if (n =? 2)%nat then Some "connection reset by peer" else None)
    empty_store.

Definition long_message : string :=
  "localhost:27017: [Errno 111] Connection refused, Timeout: 30s, Topology Description: <TopologyDescription id: 65a1, topology_type: Unknown, servers: []>".

(** The store answers no round-trip. *)
Definition down : World :=
  world_of (Some "pharmacy") (λ _, Some long_message) empty_store.


(** When the query parameter [o] is given and non-empty, the string field
    [field] of [d] is exactly its value. *)
Definition field_is (field : string) (o : option string) (d : doc) : Prop :=
  ∀ v, truthy o = Some v → str_field d field = Some v.

(** When the free-text parameter [q] is given and non-empty, the title or
    the description of [d] contains it, ignoring case. *)
Definition text_selected (q : option string) (d : doc) : Prop :=
  ∀ v, truthy q = Some v →
    field_contains d "title" v ∨ field_contains d "description" v.

(** The items of a successful list response. *)
Definition items_of (r : result response) : list doc :=
  match r with
  | Ok (R200 (BItems items)) => items
  | _ => []
  end.

(** The atoms of a pattern made of literal characters only. *)
Definition lits (q : string) : list atom := map Lit (list_ascii_of_string q).

(** A blog body with the required fields only. *)
Definition triphala_body : BlogPostPayload :=
  {| bp_title := Given "Triphala at Night"; bp_slug := Given "triphala-at-night";
     bp_category := Given "Herbal Wisdom"; bp_excerpt := Given "Three fruits.";
     bp_content := Given "Amalaki, Bibhitaki, Haritaki..."; bp_cover_image := Missing;
     bp_tags := Missing; bp_published_at := Missing |}.

Definition triphala_post : BlogPost :=
  {| b_title := "Triphala at Night"; b_slug := "triphala-at-night";
     b_category := "Herbal Wisdom"; b_excerpt := "Three fruits.";
     b_content := "Amalaki, Bibhitaki, Haritaki..."; b_cover_image := None;
     b_tags := None; b_published_at := None |}.

(** Request bodies for the examples. *)
Definition rating_six : ReviewPayload :=
  {| rp_name := Given "Anika"; rp_rating := Given 6;
     rp_comment := Given "Too good to be true."; rp_source := Missing |}.

Definition rating_five : ReviewPayload :=
  {| rp_name := Given "Anika"; rp_rating := Given 5;
     rp_comment := Given "Amazing quality."; rp_source := Missing |}.

Definition no_category_body : ProductPayload :=
  {| pp_title := Given "Triphala Churna"; pp_description := Missing;
     pp_price := Given (9 # 1); pp_category := Missing;
     pp_subcategory := Missing; pp_image := Missing; pp_in_stock := Missing |}.

Definition no_mode_body : ConsultationPayload :=
  {| cp_full_name := Given "Ravi Perera"; cp_email := Given "ravi@example.com";
     cp_phone := Missing; cp_mode := Missing; cp_preferred_date := Missing;
     cp_message := Missing; cp_service := Missing |}.

(** An e-mail validation for the examples: an [@] that is not at either
    end; the domain comes back in lower case. *)
Definition has_at (s : string) : option string :=
  match index 0 "@" s with
  | Some (S n) =>
      if (S (S n) <? String.length s)%nat
      then Some (String.append (substring 0 (S (S n)) s)
                   (lower_str (substring (S (S n)) (String.length s) s)))
      else None
  | _ => None
  end.

(** The responses the counterexamples look at. *)
Definition empty_category_response : result response :=
  (list_products None (Some "") None fresh).1.

Definition dotted_query_response : result response :=
  (list_products (Some "ne.m") None None fresh).1.

(** ** Notions used in the further properties *)

(** The store after [fields] has been inserted into [coll]. *)
Definition inserted (coll : string) (fields : doc) (s : Store) : Store :=
  {| colls := <[coll := coll_of s coll ++ [<["_id" := VId (next_id s)]> fields]]> (colls s);
     next_id := N.succ (next_id s) |}.

(** The store is configured and answers every round-trip from now on. *)
Definition healthy_from (w : World) : Prop :=
  is_Some (db_name (env w)) ∧ ∀ n, (trips w ≤ n)%nat → fault (env w) n = None.

(** [triple P m Q E]: run from a world satisfying [P], [m] either returns
    [a] in a world satisfying [Q a] or raises in a world satisfying [E]. *)
Definition triple {A} (P : World → Prop) (m : M A) (Q : A → World → Prop)
    (E : World → Prop) : Prop :=
  ∀ w, P w → match m w with
             | (Ok a, w') => Q a w'
             | (Raise _, w') => E w'
             end.

(** [m] keeps the property [J] of the store, however it ends. *)
Definition preserves {A} (J : Store → Prop) (m : M A) : Prop :=
  triple (λ w, J (store w)) m (λ _ w, J (store w)) (λ w, J (store w)).

(** The seeding of [coll] with the records [l] keeps [J]: either [J] says
    that [coll] is not empty, or inserting any of the records keeps [J]. *)
Definition seeding_keeps {A} (J : Store → Prop) (coll : string)
    (fields : A → doc) (l : list A) : Prop :=
  (∀ s, J s → coll_of s coll ≠ []) ∨
  (∀ s x, x ∈ l → J s → J (inserted coll (fields x) s)).

(** The bounds of [schemas.py], read on stored documents. *)
Definition rating_ok (d : doc) : Prop :=
  ∃ n, d !! "rating" = Some (VInt n) ∧ 1 ≤ n ≤ 5.

Definition price_ok (d : doc) : Prop :=
  ∃ q, d !! "price" = Some (VFloat q) ∧ (0 # 1 <= q)%Q.

Definition bounds_kept (s : Store) : Prop :=
  Forall rating_ok (coll_of s "review") ∧ Forall price_ok (coll_of s "product").

(** The collection a [POST] request writes to. *)
Definition target (r : request) : option string :=
  match r with
  | POST_products _ => Some "product"
  | POST_reviews _ => Some "review"
  | POST_blog _ => Some "blogpost"
  | POST_consultations _ => Some "consultation"
  | POST_contact _ => Some "contactmessage"
  | _ => None
  end.

(** The collection a listing request reads, with the cap it applies. *)
Definition listed (r : request) : option (string * option Z) :=
  match r with
  | GET_products _ _ _ => Some ("product", None)
  | GET_reviews limit =>
      Some ("review", Some match limit with Given n => n | _ => 50 end)
  | GET_blog _ => Some ("blogpost", None)
  | _ => None
  end.

(** The documents [l] as the store holds them when they are inserted one
    after the other, the first under the identifier [start]. *)
Fixpoint numbered (start : N) (l : list doc) : list doc :=
  match l with
  | [] => []
  | fields :: l' => <["_id" := VId start]> fields :: numbered (N.succ start) l'
  end.

(** The placeholders of the seeding routine, as field sets. *)
Definition product_placeholders : list doc := map product_fields samples.
Definition review_placeholders : list doc := map review_fields sample_reviews.
Definition post_placeholders : list doc := map blogpost_fields sample_posts.

(** What the seeding routine inserts into [coll] from [w]: the
    placeholders when the collection is empty, nothing otherwise. *)
Definition seeded_into (w : World) (coll : string) (placeholders : list doc)
    : list doc :=
  match docs_of w coll with
  | [] => placeholders
  | _ :: _ => []
  end.

(** What one stage of the seeding routine achieves on a healthy store:
    [coll] receives the placeholders if it was empty, under the next
    identifiers of the store, and ends up non-empty; no other collection
    changes. *)
Definition stage_post (coll : string) (placeholders : list doc) (w w' : World) : Prop :=
  env w' = env w ∧
  healthy_from w' ∧
  (∀ c, c ≠ coll → docs_of w' c = docs_of w c) ∧
  docs_of w' coll =
    docs_of w coll ++ numbered (next_id (store w)) (seeded_into w coll placeholders) ∧
  next_id (store w') =
    (next_id (store w) + N.of_nat (length (seeded_into w coll placeholders)))%N ∧
  docs_of w' coll ≠ [].

(** The identifier a creating endpoint answers with. *)
Definition created_id (b : body) : option string :=
  match b with
  | BCreated id => Some id
  | BReceived id _ => Some id
  | _ => None
  end.

(** The endpoints that do not depend on the store answering. *)
Definition always_ok (r : request) : bool :=
  match r with
  | GET_root | GET_test | GET_categories | GET_services => true
  | _ => false
  end.

(** Inputs for the examples of the further properties. *)
Definition triphala : Product :=
  sample_product "Triphala Churna" "Three fruits, ground." (9 # 1)
    "Ayurvedic Products" "Powders".

Definition negative_price_body : ProductPayload :=
  {| pp_title := Given "Triphala Churna"; pp_description := Missing;
     pp_price := Given (-1 # 1); pp_category := Given "Ayurvedic Products";
     pp_subcategory := Missing; pp_image := Missing; pp_in_stock := Missing |}.

Definition bad_email_consultation : ConsultationPayload :=
  {| cp_full_name := Given "Ravi Perera"; cp_email := Given "ravi.example.com";
     cp_phone := Missing; cp_mode := Given "online"; cp_preferred_date := Missing;
     cp_message := Missing; cp_service := Missing |}.

Definition bad_email_contact : ContactPayload :=
  {| mp_full_name := Given "Ravi Perera"; mp_email := Given "ravi.example.com";
     mp_topic := Given "Order"; mp_message := Given "Where is my parcel?";
     mp_channel := Missing |}.

(** * Properties *)

(** ** The examples of the specification, evaluated *)

Example rating_six_rejected :
  validate_review rating_six = inl [ {| loc := "rating"; violated := CLe 5 |} ].
Proof. reflexivity. Qed.

Example rating_five_accepted :
  validate_review rating_five =
    inr {| r_name := "Anika"; r_rating := 5; r_comment := "Amazing quality.";
           r_source := Some "website" |}.
Proof. reflexivity. Qed.

Example neem_matches_neem_herbal_oil :
  map (λ it, str_field it "title")
    (items_of (list_products (Some "neem") None None fresh).1)
  = [Some "Neem Herbal Oil"].
Proof. vm_compute. reflexivity. Qed.

Example ayurvedic_products_listed :
  map (λ it, str_field it "title")
    (items_of (list_products None (Some "Ayurvedic Products") None fresh).1)
  = [Some "Neem Herbal Oil"; Some "Ashwagandha Capsules"; Some "DigestEase Arishta"].
Proof. vm_compute. reflexivity. Qed.

(** The diagnostics endpoint is the one place where a store message is cut
    to 80 characters. *)
Example diagnostics_truncate :
  ∃ report,
    (test_database down).1 = Ok (R200 (BTest report)) ∧
    database report =
      String.append "⚠️ Connected but Error: " (take_chars 80 long_message) ∧
    take_chars 80 long_message = substring 0 80 long_message.
Proof. eexists. repeat split; reflexivity. Qed.

(** ** The monad *)

Lemma bind_ok {A B} (m : M A) (k : A → M B) w a w' :
  m w = (Ok a, w') → bind m k w = k a w'.
Proof. intros H. unfold bind. by rewrite H. Qed.

Lemma bind_raise {A B} (m : M A) (k : A → M B) w e w' :
  m w = (Raise e, w') → bind m k w = (Raise e, w').
Proof. intros H. unfold bind. by rewrite H. Qed.

Lemma try_ok {A} (m : M A) h w a w' :
  m w = (Ok a, w') → try_except m h w = (Ok a, w').
Proof. intros H. unfold try_except. by rewrite H. Qed.

Lemma try_raise {A} (m : M A) h w e w' :
  m w = (Raise e, w') → try_except m h w = h e w'.
Proof. intros H. unfold try_except. by rewrite H. Qed.

(** ** The store only grows *)

Lemma extends_refl w : extends w w.
Proof. split; [done | intros coll; reflexivity]. Qed.

Lemma extends_trans w1 w2 w3 : extends w1 w2 → extends w2 w3 → extends w1 w3.
Proof.
  intros [E1 P1] [E2 P2]. split; [congruence |].
  intros coll. etrans; [apply P1 | apply P2].
Qed.

Lemma monotone_ret {A} (a : A) : monotone (ret a).
Proof. intros w. apply extends_refl. Qed.

Lemma monotone_bind {A B} (m : M A) (k : A → M B) :
  monotone m → (∀ a, monotone (k a)) → monotone (bind m k).
Proof.
  intros Hm Hk w. unfold bind. specialize (Hm w).
  destruct (m w) as [[a | e] w']; simpl in *; [| done].
  eapply extends_trans; [exact Hm | apply Hk].
Qed.

Lemma monotone_try {A} (m : M A) h :
  monotone m → (∀ e, monotone (h e)) → monotone (try_except m h).
Proof.
  intros Hm Hh w. unfold try_except. specialize (Hm w).
  destruct (m w) as [[a | e] w']; simpl in *; [done |].
  eapply extends_trans; [exact Hm | apply Hh].
Qed.

Lemma monotone_for_each {A} (l : list A) (body : A → M unit) :
  (∀ x, monotone (body x)) → monotone (for_each l body).
Proof.
  intros Hb. induction l as [| x l IH]; simpl.
  - apply monotone_ret.
  - apply monotone_bind; [apply Hb | intros _; exact IH].
Qed.

Lemma extends_tick w : extends w (tick w).
Proof. split; [done | intros coll; reflexivity]. Qed.

(** A round-trip that leaves the store as it is. *)
Lemma monotone_read {A} no_db (f : Env → Store → result A) :
  monotone (round_trip no_db (λ e s, (f e s, s))).
Proof.
  intros w. unfold round_trip.
  destruct (db_name (env w)); [| apply extends_refl].
  destruct (fault (env w) (trips w)); simpl; [apply extends_tick |].
  split; [done | intros coll; reflexivity].
Qed.

Lemma coll_of_insert s coll coll' l :
  default [] (<[coll := l]> (colls s) !! coll') =
  if decide (coll = coll') then l else coll_of s coll'.
Proof.
  unfold coll_of. rewrite lookup_insert. by case_decide.
Qed.

Lemma monotone_create_document coll fields :
  monotone (create_document coll fields).
Proof.
  intros w. unfold create_document, round_trip.
  destruct (db_name (env w)); [| apply extends_refl].
  destruct (fault (env w) (trips w)); simpl; [apply extends_tick |].
  split; [done |]. intros coll'. unfold docs_of; simpl.
  rewrite coll_of_insert. case_decide as Hc.
  - subst coll'. by apply prefix_app_r.
  - reflexivity.
Qed.

Lemma monotone_get_documents coll filt limit :
  monotone (get_documents coll filt limit).
Proof.
  intros w. unfold get_documents, round_trip.
  destruct (db_name (env w)); [| apply extends_refl].
  destruct (fault (env w) (trips w)); simpl; [apply extends_tick |].
  destruct (compile_filter (env w) filt); simpl;
    (split; [done | intros c; reflexivity]).
Qed.

Lemma monotone_count_documents coll : monotone (count_documents coll).
Proof. apply monotone_read. Qed.

Lemma monotone_seed_body : monotone seed_body.
Proof.
  unfold seed_body.
  repeat first
    [ apply monotone_bind; [| intros ?]
    | apply monotone_count_documents
    | apply monotone_create_document
    | apply monotone_ret
    | apply monotone_for_each; intros ?
    | match goal with |- monotone (if ?b then _ else _) => destruct b end ].
Qed.

Lemma monotone_ensure_seed_data : monotone ensure_seed_data.
Proof.
  apply monotone_try; [apply monotone_seed_body | intros _; apply monotone_ret].
Qed.

Lemma monotone_stringify_ids items : monotone (stringify_ids items).
Proof. intros w. apply extends_refl. Qed.

Lemma monotone_now : monotone now.
Proof. intros w. apply extends_refl. Qed.

Lemma monotone_test_database : monotone test_database.
Proof.
  intros w. unfold test_database.
  destruct (db_name (env w)); [| apply extends_refl].
  assert (H : extends w (list_collection_names w).2) by apply monotone_read.
  destruct (list_collection_names w) as [[names | e] w']; exact H.
Qed.

Ltac monotone_step :=
  first
    [ apply monotone_ensure_seed_data
    | apply monotone_create_document
    | apply monotone_get_documents
    | apply monotone_stringify_ids
    | apply monotone_now
    | apply monotone_ret
    | apply monotone_try; [| intros ?]
    | apply monotone_bind; [| intros ?] ].

Lemma monotone_with_body {P A} (validate : P → list verror + A) handler payload :
  (∀ a, monotone (handler a)) → monotone (with_body validate handler payload).
Proof.
  intros H. unfold with_body. destruct (validate payload); [apply monotone_ret | apply H].
Qed.

Lemma monotone_handle valid_email r : monotone (handle valid_email r).
Proof.
  destruct r; simpl;
    try (apply monotone_with_body; intros ?);
    try apply monotone_test_database;
    try (unfold read_root, get_categories, get_services, list_products,
           list_products_query, create_product, get_reviews, add_review,
           list_blog, create_blog, book_consultation, contact;
         repeat monotone_step).
  destruct (b_published_at a); repeat monotone_step.
Qed.

(** ** Rejected bodies never reach a handler *)

Lemma with_body_rejected {P A} (validate : P → list verror + A) handler payload errs w :
  validate payload = inl errs →
  with_body validate handler payload w = (Ok (R422 errs), w).
Proof. intros H. unfold with_body. by rewrite H. Qed.

Lemma validate_review_rating x n :
  rp_rating x = Given n →
  n < 1 ∨ 5 < n →
  ∃ errs, validate_review x = inl errs ∧
    ∃ e, e ∈ errs ∧ loc e = "rating" ∧
         (n < 1 ∧ violated e = CGe 1 ∨ 5 < n ∧ violated e = CLe 5).
Proof.
  intros Hr Hn. unfold validate_review. rewrite Hr.
  assert (∃ e, check "rating" (λ n, n <=? 5) (CLe 5)
                 (check "rating" (λ n, 1 <=? n) (CGe 1) (required "rating" (Given n)))
               = inl [e] ∧ loc e = "rating" ∧
               (n < 1 ∧ violated e = CGe 1 ∨ 5 < n ∧ violated e = CLe 5))
    as (e & -> & Hloc & Hc).
  { simpl. destruct (1 <=? n) eqn:H1; simpl.
    - destruct (n <=? 5) eqn:H5; [lia |].
      eexists; split; [reflexivity |]. split; [done |]. right. split; [lia | done].
    - eexists; split; [reflexivity |]. split; [done |]. left. split; [lia | done]. }
  destruct (required "name" (rp_name x)), (required "comment" (rp_comment x)),
    (optional "source" (Some "website") (rp_source x));
    (eexists; split; [reflexivity |]); exists e; (split; [| done]);
    simpl; rewrite ?elem_of_app, ?elem_of_cons; auto 10.
Qed.

Lemma validate_product_category x :
  pp_category x = Missing →
  ∃ errs, validate_product x = inl errs ∧
          {| loc := "category"; violated := CMissing |} ∈ errs.
Proof.
  intros Hc. unfold validate_product. rewrite Hc.
  destruct (required "title" (pp_title x)),
    (optional "description" None (pp_description x)),
    (check "price" Qge0 (CGe 0) (required "price" (pp_price x))),
    (optional "subcategory" None (pp_subcategory x)),
    (optional "image" None (pp_image x)),
    (optional "in_stock" true (pp_in_stock x));
    (eexists; split; [reflexivity |]);
    simpl; rewrite ?elem_of_app, ?elem_of_cons; auto 10.
Qed.

Lemma validate_consultation_mode valid_email x :
  cp_mode x = Missing →
  ∃ errs, validate_consultation valid_email x = inl errs ∧
          {| loc := "mode"; violated := CMissing |} ∈ errs.
Proof.
  intros Hc. unfold validate_consultation. rewrite Hc.
  destruct (required "full_name" (cp_full_name x)),
    (check_email "email" valid_email (required "email" (cp_email x))),
    (optional "phone" None (cp_phone x)),
    (optional "preferred_date" None (cp_preferred_date x)),
    (optional "message" None (cp_message x)),
    (optional "service" "ayurvedic" (cp_service x));
    (eexists; split; [reflexivity |]);
    simpl; rewrite ?elem_of_app, ?elem_of_cons; auto 10.
Qed.

(** C1.  A review body whose rating is an integer below 1 or above 5 fails
    validation with an error located at the [rating] field (naming the
    violated bound); [POST /api/reviews] answers with these errors without
    calling the handler, so nothing is inserted: the world, and with it
    the review collection, is exactly as before. *)
Theorem review_rating_out_of_range valid_email x n w :
  rp_rating x = Given n →
  n < 1 ∨ 5 < n →
  ∃ errs,
    validate_review x = inl errs ∧
    (∃ e, e ∈ errs ∧ loc e = "rating" ∧
          (n < 1 ∧ violated e = CGe 1 ∨ 5 < n ∧ violated e = CLe 5)) ∧
    handle valid_email (POST_reviews x) w = (Ok (R422 errs), w) ∧
    docs_of (handle valid_email (POST_reviews x) w).2 "review" = docs_of w "review".
Proof.
  intros Hr Hn.
  destruct (validate_review_rating x n Hr Hn) as (errs & Hv & He).
  exists errs. split; [done |]. split; [done |].
  assert (handle valid_email (POST_reviews x) w = (Ok (R422 errs), w)) as ->.
  { simpl. by apply with_body_rejected. }
  done.
Qed.

Lemma review_rating_out_of_range_witness :
  ∃ errs,
    validate_review rating_six = inl errs ∧
    (∃ e, e ∈ errs ∧ loc e = "rating" ∧
          (6 < 1 ∧ violated e = CGe 1 ∨ 5 < 6 ∧ violated e = CLe 5)) ∧
    handle has_at (POST_reviews rating_six) fresh = (Ok (R422 errs), fresh) ∧
    docs_of (handle has_at (POST_reviews rating_six) fresh).2 "review"
      = docs_of fresh "review".
Proof.
  apply (review_rating_out_of_range has_at rating_six 6 fresh);
    [reflexivity | right; lia].
Defined.

(** C10.  The schemas require more than the title of a product and more
    than the e-mail of a consultation: a product body without [category]
    and a consultation body without [mode] are each rejected with a
    "missing" error at that field, and the request leaves the world (hence
    every collection) as it was. *)
Theorem category_and_mode_are_required valid_email w :
  (∀ x, pp_category x = Missing →
     ∃ errs, validate_product x = inl errs ∧
             {| loc := "category"; violated := CMissing |} ∈ errs ∧
             handle valid_email (POST_products x) w = (Ok (R422 errs), w)) ∧
  (∀ x, cp_mode x = Missing →
     ∃ errs, validate_consultation valid_email x = inl errs ∧
             {| loc := "mode"; violated := CMissing |} ∈ errs ∧
             handle valid_email (POST_consultations x) w = (Ok (R422 errs), w)).
Proof.
  split; intros x Hx.
  - destruct (validate_product_category x Hx) as (errs & Hv & He).
    exists errs. repeat split; [done | done |]. simpl. by apply with_body_rejected.
  - destruct (validate_consultation_mode valid_email x Hx) as (errs & Hv & He).
    exists errs. repeat split; [done | done |]. simpl. by apply with_body_rejected.
Qed.

Lemma category_and_mode_are_required_witness :
  (∃ errs, validate_product no_category_body = inl errs ∧
           {| loc := "category"; violated := CMissing |} ∈ errs ∧
           handle has_at (POST_products no_category_body) fresh
             = (Ok (R422 errs), fresh)) ∧
  (∃ errs, validate_consultation has_at no_mode_body = inl errs ∧
           {| loc := "mode"; violated := CMissing |} ∈ errs ∧
           handle has_at (POST_consultations no_mode_body) fresh
             = (Ok (R422 errs), fresh)).
Proof.
  split.
  - apply (proj1 (category_and_mode_are_required has_at fresh) no_category_body).
    reflexivity.
  - apply (proj2 (category_and_mode_are_required has_at fresh) no_mode_body).
    reflexivity.
Defined.

(** C9.  No request updates or deletes a stored document: whatever the
    endpoint and its input, each collection after the request is the
    collection before it, in the same order, followed by the documents
    the request inserted (possibly none). *)
Theorem endpoints_only_insert valid_email (r : request) (w : World) (coll : string) :
  ∃ inserted,
    docs_of (handle valid_email r w).2 coll = docs_of w coll ++ inserted.
Proof. apply (monotone_handle valid_email r w). Qed.

(** ** Round-trips *)

Lemma round_trip_no_db {A} no_db (op : Env → Store → result A * Store) w :
  db_name (env w) = None → round_trip no_db op w = (Raise no_db, w).
Proof. intros H. unfold round_trip. by rewrite H. Qed.

Lemma round_trip_fault {A} no_db (op : Env → Store → result A * Store) w name msg :
  db_name (env w) = Some name →
  fault (env w) (trips w) = Some msg →
  round_trip no_db op w = (Raise msg, tick w).
Proof. intros H1 H2. unfold round_trip. by rewrite H1, H2. Qed.

Lemma round_trip_answer {A} no_db (op : Env → Store → result A * Store) w name :
  db_name (env w) = Some name →
  fault (env w) (trips w) = None →
  round_trip no_db op w =
    ((op (env w) (store w)).1,
     {| env := env w; store := (op (env w) (store w)).2; trips := S (trips w) |}).
Proof.
  intros H1 H2. unfold round_trip. rewrite H1, H2.
  by destruct (op (env w) (store w)).
Qed.

Lemma store_error_some w msg :
  store_error w = Some msg →
  ∀ {A} (op : Env → Store → result A * Store),
    ∃ w', round_trip not_available op w = (Raise msg, w') ∧
          store w' = store w ∧ env w' = env w.
Proof.
  unfold store_error. intros H A op.
  destruct (db_name (env w)) as [name |] eqn:Hdb.
  - exists (tick w). by erewrite round_trip_fault.
  - injection H as <-. exists w. by rewrite round_trip_no_db.
Qed.

Lemma store_error_none w :
  store_error w = None →
  ∀ {A} no_db (op : Env → Store → result A * Store),
    round_trip no_db op w =
      ((op (env w) (store w)).1,
       {| env := env w; store := (op (env w) (store w)).2; trips := S (trips w) |}).
Proof.
  unfold store_error. intros H A no_db op.
  destruct (db_name (env w)) as [name |] eqn:Hdb; [| done].
  by eapply round_trip_answer.
Qed.

(** ** The seeding routine *)

Lemma count_documents_cases coll w :
  (∃ e w', count_documents coll w = (Raise e, w') ∧ store w' = store w) ∨
  count_documents coll w = (Ok (Z.of_nat (length (docs_of w coll))), tick w).
Proof.
  unfold count_documents.
  destruct (db_name (env w)) as [name |] eqn:Hdb.
  - destruct (fault (env w) (trips w)) as [msg |] eqn:Hf.
    + left. exists msg, (tick w). by erewrite round_trip_fault.
    + right. by erewrite round_trip_answer.
  - left. eexists _, w. by rewrite round_trip_no_db.
Qed.

Lemma count_nonzero {A} (l : list A) : l ≠ [] → (Z.of_nat (length l) =? 0) = false.
Proof. destruct l; [done | intros _; apply Z.eqb_neq; simpl; lia]. Qed.

Lemma seed_body_populated w :
  docs_of w "product" ≠ [] →
  docs_of w "review" ≠ [] →
  docs_of w "blogpost" ≠ [] →
  store (seed_body w).2 = store w.
Proof.
  intros Hp Hr Hb. unfold seed_body.
  destruct (count_documents_cases "product" w) as [(e & w' & H & Hs) | H];
    [by rewrite (bind_raise _ _ _ _ _ H) | rewrite (bind_ok _ _ _ _ _ H)].
  rewrite (count_nonzero _ Hp).
  rewrite (bind_ok _ _ _ tt _ eq_refl). clear H.
  destruct (count_documents_cases "review" (tick w)) as [(e & w' & H & Hs) | H];
    [by rewrite (bind_raise _ _ _ _ _ H) | rewrite (bind_ok _ _ _ _ _ H)].
  change (docs_of (tick w) "review") with (docs_of w "review").
  rewrite (count_nonzero _ Hr).
  rewrite (bind_ok _ _ _ tt _ eq_refl). clear H.
  destruct (count_documents_cases "blogpost" (tick (tick w)))
    as [(e & w' & H & Hs) | H];
    [by rewrite (bind_raise _ _ _ _ _ H) | rewrite (bind_ok _ _ _ _ _ H)].
  change (docs_of (tick (tick w)) "blogpost") with (docs_of w "blogpost").
  by rewrite (count_nonzero _ Hb).
Qed.

Lemma ensure_seed_data_world w : (ensure_seed_data w).2 = (seed_body w).2.
Proof.
  unfold ensure_seed_data, try_except.
  by destruct (seed_body w) as [[[] | e] w'].
Qed.

Lemma ensure_seed_data_returns w : (ensure_seed_data w).1 = Ok tt.
Proof.
  unfold ensure_seed_data, try_except.
  by destruct (seed_body w) as [[[] | e] w'].
Qed.

Lemma ensure_seed_data_env w : env (ensure_seed_data w).2 = env w.
Proof. apply (monotone_ensure_seed_data w). Qed.

(** C6.  When the product, review and blogpost collections are all
    non-empty, the seeding routine inserts nothing: the store after one
    run, and after a second run, is the store before. *)
Theorem seeding_idempotent_on_populated w :
  docs_of w "product" ≠ [] →
  docs_of w "review" ≠ [] →
  docs_of w "blogpost" ≠ [] →
  store (ensure_seed_data w).2 = store w ∧
  store (ensure_seed_data (ensure_seed_data w).2).2 = store w.
Proof.
  intros Hp Hr Hb.
  assert (H1 : store (ensure_seed_data w).2 = store w).
  { rewrite ensure_seed_data_world. by apply seed_body_populated. }
  split; [done |].
  rewrite <- H1. rewrite (ensure_seed_data_world (ensure_seed_data w).2).
  apply seed_body_populated; unfold docs_of; by rewrite H1.
Qed.

Lemma seeding_idempotent_on_populated_witness :
  store (ensure_seed_data seeded).2 = store seeded ∧
  store (ensure_seed_data (ensure_seed_data seeded).2).2 = store seeded.
Proof.
  apply (seeding_idempotent_on_populated seeded);
    intros H; apply (f_equal length) in H; vm_compute in H; discriminate H.
Defined.

(** ** Failures of the store *)

Lemma query_store_error q category subcategory w msg :
  store_error w = Some msg →
  (list_products_query q category subcategory w).1 = Ok (R500 msg).
Proof.
  intros H. unfold list_products_query, get_documents.
  destruct (store_error_some w msg H (A := list doc)
              (λ e s, match compile_filter e (product_filter q category subcategory) with
                      | inl msg => (Raise msg, s)
                      | inr f => (Ok (cap None (List.filter f (coll_of s "product"))), s)
                      end)) as (w' & Hrt & _).
  by rewrite (try_raise _ _ _ _ _ (bind_raise _ _ _ _ _ Hrt)).
Qed.

Lemma create_store_error coll fields (reply : string → body) w msg :
  store_error w = Some msg →
  ∃ w', try_except
          (let* id := create_document coll fields in ret (R200 (reply id)))
          (λ e, ret (R500 e)) w = (Ok (R500 msg), w') ∧
        store w' = store w.
Proof.
  intros H. unfold create_document.
  destruct (store_error_some w msg H (A := string)
              (λ e s,
                 (Ok (py_str e (VId (next_id s))),
                  {| colls := <[coll := coll_of s coll ++
                                  [<["_id" := VId (next_id s)]> fields]]> (colls s);
                     next_id := N.succ (next_id s) |}))) as (w' & Hrt & Hs & _).
  exists w'. by rewrite (try_raise _ _ _ _ _ (bind_raise _ _ _ _ _ Hrt)).
Qed.

Lemma list_products_unfold q category subcategory w :
  list_products q category subcategory w =
  list_products_query q category subcategory (ensure_seed_data w).2.
Proof.
  unfold list_products, bind.
  pose proof (ensure_seed_data_returns w) as H.
  destruct (ensure_seed_data w) as [r w']; simpl in *. by subst r.
Qed.

(** C3, as the code has it.  When the store fails a product list or a
    product create with message [msg], the endpoint answers 500 and the
    detail is [msg] itself, whole; a failed create stores nothing. *)
Theorem store_error_surfaces_in_full w msg :
  (store_error w = Some msg →
   ∀ product,
     (create_product product w).1 = Ok (R500 msg) ∧
     store (create_product product w).2 = store w) ∧
  (store_error (ensure_seed_data w).2 = Some msg →
   ∀ q category subcategory,
     (list_products q category subcategory w).1 = Ok (R500 msg)).
Proof.
  split; intros H.
  - intros product. unfold create_product.
    destruct (create_store_error "product" (product_fields product) BCreated w msg H)
      as (w' & -> & Hs). done.
  - intros q category subcategory. rewrite list_products_unfold.
    by apply query_store_error.
Qed.

Lemma store_error_surfaces_in_full_witness :
  store_error down = Some long_message ∧
  (create_product (sample_product "Triphala" "Churna" (9 # 1) "Ayurvedic Products" "Powders")
     down).1 = Ok (R500 long_message) ∧
  (list_products (Some "neem") None None down).1 = Ok (R500 long_message).
Proof.
  split; [reflexivity |]. split.
  - apply (proj1 (store_error_surfaces_in_full down long_message)). reflexivity.
  - apply (proj2 (store_error_surfaces_in_full down long_message)). reflexivity.
Defined.

(** C3 as stated fails: with a 152-character store message, both endpoints
    answer with the whole message, which its 80-character truncation (the
    one the diagnostics endpoint applies) is not. *)
Lemma detail_is_not_truncated :
  (create_product (sample_product "Triphala" "Churna" (9 # 1) "Ayurvedic Products" "Powders")
     down).1 = Ok (R500 long_message) ∧
  (list_products None None None down).1 = Ok (R500 long_message) ∧
  String.length long_message = 152%nat ∧
  String.length (substring 0 80 long_message) = 80%nat ∧
  (∀ n, (n < 152)%nat → substring 0 n long_message ≠ long_message).
Proof.
  split; [reflexivity |]. split; [reflexivity |]. split; [reflexivity |].
  split; [reflexivity |].
  intros n Hn Heq. apply (f_equal String.length) in Heq.
  assert (Hlen : ∀ (s : string) k, (k ≤ String.length s)%nat →
                   String.length (substring 0 k s) = k).
  { induction s as [| c s IH]; intros [| k] Hk; simpl in *; try lia.
    rewrite IH; lia. }
  rewrite Hlen in Heq; change (String.length long_message) with 152%nat in *; lia.
Qed.




(** ** Creating a blog post *)

Lemma create_document_ok coll fields w :
  store_error w = None →
  create_document coll fields w =
    (Ok (py_str (env w) (VId (next_id (store w)))),
     {| env := env w;
        store :=
          {| colls := <[coll := coll_of (store w) coll ++
                          [<["_id" := VId (next_id (store w))]> fields]]>
                        (colls (store w));
             next_id := N.succ (next_id (store w)) |};
        trips := S (trips w) |}).
Proof.
  intros H. unfold create_document. by rewrite (store_error_none w H).
Qed.

Lemma validate_blogpost_published x post :
  validate_blogpost x = inr post →
  b_published_at post =
    match bp_published_at x with Given o => o | _ => None end.
Proof.
  unfold validate_blogpost.
  destruct (bp_published_at x); simpl;
    destruct (required "title" (bp_title x)), (required "slug" (bp_slug x)),
      (required "category" (bp_category x)), (required "excerpt" (bp_excerpt x)),
      (required "content" (bp_content x)),
      (optional "cover_image" None (bp_cover_image x)),
      (optional "tags" None (bp_tags x));
    intros H; try discriminate H; by injection H as <-.
Qed.

Lemma create_blog_stores post w :
  store_error w = None →
  ∃ id d,
    (create_blog post w).1 = Ok (R200 (BCreated id)) ∧
    docs_of (create_blog post w).2 "blogpost" = docs_of w "blogpost" ++ [d] ∧
    d !! "published_at" =
      Some (VDate (default (utcnow (env w)) (b_published_at post))).
Proof.
  intros H. unfold create_blog.
  destruct (b_published_at post) as [t |] eqn:Hp.
  - unfold try_except, bind, ret.
    rewrite (create_document_ok _ _ _ H).
    eexists _, _. split; [reflexivity |]. split.
    + unfold docs_of; simpl. rewrite coll_of_insert. by rewrite decide_True.
    + rewrite lookup_insert_ne by done. unfold blogpost_fields.
      rewrite !lookup_insert_ne by done. rewrite lookup_insert_eq. by rewrite Hp.
  - unfold try_except, bind, ret, now.
    rewrite (create_document_ok _ _ _ H).
    eexists _, _. split; [reflexivity |]. split.
    + unfold docs_of; simpl. rewrite coll_of_insert. by rewrite decide_True.
    + rewrite lookup_insert_ne by done. unfold blogpost_fields.
      rewrite !lookup_insert_ne by done. by rewrite lookup_insert_eq.
Qed.

(** C5.  For a body that [POST /api/blog] accepts, while the store
    answers: the post is stored and its identifier returned; when the body
    has no [published_at] (absent or null) the stored document carries the
    time of creation, and when it has one the stored document carries
    that very value. *)
Theorem blog_published_at valid_email x post w :
  validate_blogpost x = inr post →
  store_error w = None →
  ∃ id d,
    (handle valid_email (POST_blog x) w).1 = Ok (R200 (BCreated id)) ∧
    docs_of (handle valid_email (POST_blog x) w).2 "blogpost"
      = docs_of w "blogpost" ++ [d] ∧
    (bp_published_at x = Missing ∨ bp_published_at x = Given None →
       d !! "published_at" = Some (VDate (utcnow (env w)))) ∧
    (∀ t, bp_published_at x = Given (Some t) →
       d !! "published_at" = Some (VDate t)).
Proof.
  intros Hv Hs. simpl. unfold with_body. rewrite Hv.
  destruct (create_blog_stores post w Hs) as (id & d & Hr & Hd & Hp).
  exists id, d. split; [done |]. split; [done |].
  rewrite (validate_blogpost_published x post Hv) in Hp.
  split.
  - intros [Hx | Hx]; by rewrite Hx in Hp.
  - intros t Hx. by rewrite Hx in Hp.
Qed.

Lemma blog_published_at_witness :
  ∃ id d,
    (handle has_at (POST_blog triphala_body) fresh).1 = Ok (R200 (BCreated id)) ∧
    docs_of (handle has_at (POST_blog triphala_body) fresh).2 "blogpost" = [d] ∧
    d !! "published_at" = Some (VDate 1700000000).
Proof.
  destruct (blog_published_at has_at triphala_body triphala_post fresh
              eq_refl eq_refl) as (id & d & Hr & Hd & Hnone & _).
  exists id, d. split; [exact Hr |]. split; [exact Hd |].
  apply Hnone. left. reflexivity.
Defined.

(** ** Reading never writes *)

Lemma get_documents_store coll filt limit w :
  store (get_documents coll filt limit w).2 = store w.
Proof.
  unfold get_documents, round_trip.
  destruct (db_name (env w)); [| done].
  destruct (fault (env w) (trips w)); [done |].
  by destruct (compile_filter (env w) filt).
Qed.

Lemma get_reviews_store limit w : store (get_reviews limit w).2 = store w.
Proof.
  unfold get_reviews, try_except, bind.
  pose proof (get_documents_store "review" [] (Some limit) w) as H.
  by destruct (get_documents "review" [] (Some limit) w) as [[docs | e] w'].
Qed.

(** C4 fails on the code.  [GET /api/reviews] never calls the seeding
    routine: it leaves every store as it found it.  On a reachable store
    with no documents it answers with the empty list and the review
    collection stays empty, whereas the product list and the blog list,
    run on that same store, leave the two placeholder reviews behind. *)
Theorem get_reviews_does_not_seed :
  (∀ limit w, store (get_reviews limit w).2 = store w) ∧
  docs_of fresh "review" = [] ∧
  (get_reviews 50 fresh).1 = Ok (R200 (BItems [])) ∧
  docs_of (get_reviews 50 fresh).2 "review" = [] ∧
  map (λ d, str_field d "name")
    (docs_of (list_products None None None fresh).2 "review")
    = [Some "Anika"; Some "Ravi"] ∧
  map (λ d, str_field d "name") (docs_of (list_blog None fresh).2 "review")
    = [Some "Anika"; Some "Ravi"].
Proof.
  split; [apply get_reviews_store |].
  repeat split; vm_compute; reflexivity.
Qed.

(** ** Literal patterns search for a substring *)

Lemma literal_cons c q :
  literal (String c q) ↔ is_meta c = false ∧ literal q.
Proof. unfold literal; simpl. apply (Forall_cons (λ c, is_meta c = false)). Qed.

Lemma compile_fragment_literal q : literal q → compile_fragment q = Some (lits q).
Proof.
  induction q as [| c q IH]; [done |].
  rewrite literal_cons. intros [Hc Hq]. simpl.
  destruct (Ascii.eqb c ".") eqn:E.
  { apply Ascii.eqb_eq in E. subst c. vm_compute in Hc. discriminate Hc. }
  by rewrite Hc, (IH Hq).
Qed.

Lemma match_here_lits q s :
  match_here true (lits q) s = true ↔
  ∃ post, lower_str s = String.append (lower_str q) post.
Proof.
  revert s. induction q as [| c q IH]; intros s.
  - split; [intros _; by exists (lower_str s) | done].
  - destruct s as [| d s]; simpl.
    + split; [done | intros [post H]; discriminate H].
    + rewrite andb_true_iff, Ascii.eqb_eq. fold (lits q). rewrite IH. split.
      * intros [Hc [post H]]. exists post. by rewrite Hc, H.
      * intros [post H]. injection H as Hc H. split; [done | by exists post].
Qed.

Lemma ci_substring_nil q :
  ci_substring q "" ↔ ∃ post, "" = String.append (lower_str q) post.
Proof.
  split.
  - intros (pre & post & H). destruct pre; [| discriminate H]. by exists post.
  - intros [post H]. by exists "", post.
Qed.

Lemma ci_substring_cons q d s :
  ci_substring q (String d s) ↔
  (∃ post, lower_str (String d s) = String.append (lower_str q) post) ∨
  ci_substring q s.
Proof.
  split.
  - intros (pre & post & H). destruct pre as [| p pre].
    + left. by exists post.
    + right. injection H as _ H. by exists pre, post.
  - intros [[post H] | (pre & post & H)].
    + by exists "", post.
    + exists (String (lower d) pre), post. simpl. by rewrite H.
Qed.

Lemma search_lits q s : search true (lits q) s = true ↔ ci_substring q s.
Proof.
  induction s as [| d s IH].
  - rewrite ci_substring_nil, <- (match_here_lits q ""). simpl.
    by rewrite orb_false_r.
  - rewrite ci_substring_cons, <- (match_here_lits q (String d s)), <- IH.
    change (search true (lits q) (String d s))
      with (match_here true (lits q) (String d s) || search true (lits q) s).
    apply orb_true_iff.
Qed.

Lemma regex_compile_literal e q :
  literal q → regex_compile e q "i" = inr (search true (lits q)).
Proof.
  intros Hq. unfold regex_compile. by rewrite (compile_fragment_literal q Hq).
Qed.

(** ** What the product filter selects *)

Lemma compile_filter_app e l1 l2 f :
  compile_filter e (l1 ++ l2) = inr f →
  ∃ f1 f2, compile_filter e l1 = inr f1 ∧ compile_filter e l2 = inr f2 ∧
           ∀ d, f d = f1 d && f2 d.
Proof.
  revert f. induction l1 as [| q l1 IH]; intros f; simpl.
  - intros H. by exists (λ _, true), f.
  - destruct (compile_query e q) as [msg | g]; [done |].
    destruct (compile_filter e (l1 ++ l2)) as [msg | h]; [done |].
    intros [= <-]. destruct (IH h eq_refl) as (f1 & f2 & -> & H2 & Hf).
    exists (λ d, g d && f1 d), f2. split; [done |]. split; [done |].
    intros d. by rewrite Hf, andb_assoc.
Qed.

Lemma compile_filter_app_ok e l1 l2 f1 f2 :
  compile_filter e l1 = inr f1 →
  compile_filter e l2 = inr f2 →
  ∃ f, compile_filter e (l1 ++ l2) = inr f ∧ ∀ d, f d = f1 d && f2 d.
Proof.
  revert f1. induction l1 as [| q l1 IH]; intros f1; simpl.
  - intros [= <-] H2. by exists f2.
  - destruct (compile_query e q) as [msg | g]; [done |].
    destruct (compile_filter e l1) as [msg | h]; [done |].
    intros [= <-] H2. destruct (IH h eq_refl H2) as (f & -> & Hf).
    eexists. split; [done |]. intros d. simpl. by rewrite Hf, andb_assoc.
Qed.

Lemma equality_clause e field o :
  ∃ f, compile_filter e match truthy o with
                        | Some v => [QEq field v]
                        | None => []
                        end = inr f ∧
       ∀ d, f d = true ↔ field_is field o d.
Proof.
  unfold field_is. destruct (truthy o) as [v |]; simpl.
  - eexists. split; [done |]. intros d. simpl. rewrite andb_true_r.
    destruct (str_field d field) as [s |].
    + rewrite String.eqb_eq. split; [by intros -> ? [= <-] | intros H].
      by injection (H v eq_refl).
    + split; [done | intros H]. by specialize (H v eq_refl).
  - eexists. split; [done |]. done.
Qed.

Lemma regex_clause_literal e field q :
  literal q →
  compile_query e (QRegex field q "i") =
    inr (λ d, match str_field d field with
              | Some s => search true (lits q) s
              | None => false
              end).
Proof. intros Hq. simpl. by rewrite (regex_compile_literal e q Hq). Qed.

Lemma field_search d field q :
  match str_field d field with
  | Some s => search true (lits q) s
  | None => false
  end = true ↔ field_contains d field q.
Proof.
  unfold field_contains. destruct (str_field d field) as [s |].
  - rewrite search_lits. split; [intros H; by exists s | by intros (? & [= <-] & H)].
  - split; [done | by intros (? & ? & _)].
Qed.

Lemma text_clause e q :
  (∀ v, truthy q = Some v → literal v) →
  ∃ f, compile_filter e match truthy q with
                        | Some v => [QOr [QRegex "title" v "i";
                                          QRegex "description" v "i"]]
                        | None => []
                        end = inr f ∧
       ∀ d, f d = true ↔ text_selected q d.
Proof.
  unfold text_selected. intros Hq. destruct (truthy q) as [v |].
  - specialize (Hq v eq_refl).
    eexists. split.
    { cbn [compile_filter compile_query].
      rewrite (regex_compile_literal e v Hq). reflexivity. }
    intros d. cbn beta. rewrite andb_true_r, orb_false_r, orb_true_iff.
    rewrite !field_search. split; [by intros H ? [= <-] | intros H; by apply H].
  - eexists. split; [done |]. done.
Qed.

Lemma product_filter_compiled e q category subcategory :
  (∀ v, truthy q = Some v → literal v) →
  ∃ f, compile_filter e (product_filter q category subcategory) = inr f ∧
       ∀ d, f d = true ↔
            field_is "category" category d ∧
            field_is "subcategory" subcategory d ∧
            text_selected q d.
Proof.
  intros Hq. unfold product_filter.
  destruct (equality_clause e "category" category) as (fc & Hc & Hfc).
  destruct (equality_clause e "subcategory" subcategory) as (fs & Hs & Hfs).
  destruct (text_clause e q Hq) as (ft & Ht & Hft).
  destruct (compile_filter_app_ok e _ _ _ _ Hs Ht) as (fr & Hst & Hfst).
  destruct (compile_filter_app_ok e _ _ _ _ Hc Hst) as (f & Hf & Hff).
  exists f. split; [done |]. intros d.
  by rewrite Hff, Hfst, !andb_true_iff, Hfc, Hfs, Hft.
Qed.

Lemma product_filter_selects e q category subcategory f d :
  compile_filter e (product_filter q category subcategory) = inr f →
  f d = true →
  field_is "category" category d ∧ field_is "subcategory" subcategory d.
Proof.
  unfold product_filter. intros Hf Hd.
  destruct (compile_filter_app e _ _ _ Hf) as (fc & frest & Hc & Hrest & Hff).
  destruct (compile_filter_app e _ _ _ Hrest) as (fs & ft & Hs & _ & Hfr).
  destruct (equality_clause e "category" category) as (fc' & Hc' & Hfc).
  destruct (equality_clause e "subcategory" subcategory) as (fs' & Hs' & Hfs).
  rewrite Hc in Hc'. injection Hc' as <-. rewrite Hs in Hs'. injection Hs' as <-.
  rewrite Hff, Hfr, !andb_true_iff in Hd. destruct Hd as (H1 & H2 & _).
  split; [by apply Hfc | by apply Hfs].
Qed.

(** ** Querying *)

Lemma get_documents_ok coll filt limit w f :
  store_error w = None →
  compile_filter (env w) filt = inr f →
  get_documents coll filt limit w =
    (Ok (cap limit (List.filter f (docs_of w coll))), tick w).
Proof.
  intros Hs Hf. unfold get_documents.
  rewrite (store_error_none w Hs). by rewrite Hf.
Qed.

Lemma get_documents_inv coll filt limit w items w' :
  get_documents coll filt limit w = (Ok items, w') →
  ∃ f, compile_filter (env w) filt = inr f ∧
       items = cap limit (List.filter f (docs_of w coll)) ∧
       env w' = env w.
Proof.
  unfold get_documents, round_trip.
  destruct (db_name (env w)); [| done].
  destruct (fault (env w) (trips w)); [done |].
  destruct (compile_filter (env w) filt) as [msg | f]; [done |].
  intros [= <- <-]. by exists f.
Qed.

Lemma list_products_query_ok q category subcategory w f :
  store_error w = None →
  compile_filter (env w) (product_filter q category subcategory) = inr f →
  list_products_query q category subcategory w =
    (Ok (R200 (BItems (map (with_str_id (env w)) (List.filter f (docs_of w "product"))))),
     tick w).
Proof.
  intros Hs Hf. unfold list_products_query, try_except, bind.
  by rewrite (get_documents_ok _ _ _ _ _ Hs Hf).
Qed.

Lemma list_products_query_inv q category subcategory w items :
  (list_products_query q category subcategory w).1 = Ok (R200 (BItems items)) →
  ∃ f, compile_filter (env w) (product_filter q category subcategory) = inr f ∧
       items = map (with_str_id (env w)) (List.filter f (docs_of w "product")).
Proof.
  unfold list_products_query, try_except, bind.
  destruct (get_documents "product" (product_filter q category subcategory) None w)
    as [[docs | e] w'] eqn:Hg; simpl; [| done].
  destruct (get_documents_inv _ _ _ _ _ _ Hg) as (f & Hf & -> & He).
  intros [= <-]. exists f. by rewrite He.
Qed.

Lemma elem_of_selected (g : doc → doc) (f : doc → bool) (l : list doc) it :
  it ∈ map g (List.filter f l) ↔ ∃ d, d ∈ l ∧ it = g d ∧ f d = true.
Proof.
  rewrite list_elem_of_In, in_map_iff. split.
  - intros (d & <- & Hd). apply filter_In in Hd as [Hd Hf].
    exists d. by rewrite list_elem_of_In.
  - intros (d & Hd & -> & Hf). exists d. split; [done |].
    apply filter_In. by rewrite <- list_elem_of_In.
Qed.

Lemma str_field_lookup (d : doc) field s :
  str_field d field = Some s → d !! field = Some (VStr s).
Proof.
  unfold str_field. destruct (d !! field) as [[] |]; try done. by intros [= ->].
Qed.

(** ** Listing products *)

(** C8, as the code has it.  When the product list answers with items
    and a non-empty [category] was supplied, every item's [category] is
    exactly that value; likewise for a non-empty [subcategory]. *)
Theorem category_filter_is_equality w q category subcategory items :
  (list_products q category subcategory w).1 = Ok (R200 (BItems items)) →
  (∀ c, category = Some c → c ≠ "" →
     Forall (λ it : doc, it !! "category" = Some (VStr c)) items) ∧
  (∀ s, subcategory = Some s → s ≠ "" →
     Forall (λ it : doc, it !! "subcategory" = Some (VStr s)) items).
Proof.
  rewrite list_products_unfold. intros H.
  destruct (list_products_query_inv _ _ _ _ _ H) as (f & Hf & ->).
  split; intros v -> Hv; apply Forall_forall; intros it Hit;
    apply elem_of_selected in Hit as (d & _ & -> & Hd);
    destruct (product_filter_selects _ _ _ _ _ _ Hf Hd) as [Hc Hs];
    unfold with_str_id; rewrite lookup_insert_ne by done;
    apply str_field_lookup; [apply Hc | apply Hs]; by destruct v.
Qed.

Lemma category_filter_is_equality_witness :
  Forall (λ it : doc, it !! "category" = Some (VStr "Traditional Products"))
    (items_of (list_products None (Some "Traditional Products") None fresh).1) ∧
  length (items_of (list_products None (Some "Traditional Products") None fresh).1)
    = 1%nat.
Proof.
  assert (H : (list_products None (Some "Traditional Products") None fresh).1 =
              Ok (R200 (BItems (items_of
                (list_products None (Some "Traditional Products") None fresh).1))))
    by (vm_compute; reflexivity).
  split; [| vm_compute; reflexivity].
  apply (proj1 (category_filter_is_equality fresh None
                  (Some "Traditional Products") None _ H)
           "Traditional Products" eq_refl).
  discriminate.
Defined.

(** C8 as stated fails for the empty value: [category=] is supplied but
    ignored by the handler, and the five products that come back have
    other categories. *)
Lemma empty_category_is_no_filter :
  empty_category_response = Ok (R200 (BItems (items_of empty_category_response))) ∧
  map (λ it, str_field it "category") (items_of empty_category_response) =
    [Some "Ayurvedic Products"; Some "Ayurvedic Products";
     Some "Ayurvedic Products"; Some "Traditional Products";
     Some "Disease-Related Products"] ∧
  ¬ Forall (λ it : doc, it !! "category" = Some (VStr ""))
      (items_of empty_category_response).
Proof.
  split; [vm_compute; reflexivity |].
  assert (Hm : map (λ it, str_field it "category") (items_of empty_category_response) =
               [Some "Ayurvedic Products"; Some "Ayurvedic Products";
                Some "Ayurvedic Products"; Some "Traditional Products";
                Some "Disease-Related Products"]) by (vm_compute; reflexivity).
  split; [exact Hm |].
  remember (items_of empty_category_response) as items eqn:E. clear E.
  destruct items as [| it items]; [discriminate Hm |].
  intros H. apply Forall_cons in H as [H _].
  injection Hm as Hm _. unfold str_field in Hm. rewrite H in Hm. discriminate Hm.
Qed.

(** C2, as the code has it.  [q] is handed to the store as a regular
    expression.  When [q] has no metacharacter (and, for the empty [q],
    every stored product has a title) and the store answers, the product
    list returns exactly the stored products whose title or description
    contains [q] without regard to case, among those that pass the
    category and subcategory filters, each with its identifier rendered
    as a string. *)
Theorem literal_query_is_substring_search w q category subcategory :
  literal q →
  (q = "" → Forall (λ d, is_Some (str_field d "title"))
              (docs_of (ensure_seed_data w).2 "product")) →
  store_error (ensure_seed_data w).2 = None →
  ∃ items,
    (list_products (Some q) category subcategory w).1 = Ok (R200 (BItems items)) ∧
    ∀ it, it ∈ items ↔
      ∃ d, d ∈ docs_of (ensure_seed_data w).2 "product" ∧
           it = with_str_id (env w) d ∧
           (field_contains d "title" q ∨ field_contains d "description" q) ∧
           field_is "category" category d ∧
           field_is "subcategory" subcategory d.
Proof.
  intros Hq Htitle Hs. rewrite list_products_unfold.
  destruct (product_filter_compiled (env (ensure_seed_data w).2)
              (Some q) category subcategory) as (f & Hf & Hsel).
  { intros v Hv. destruct q; [done |]. by injection Hv as <-. }
  rewrite (list_products_query_ok _ _ _ _ _ Hs Hf). rewrite ensure_seed_data_env.
  eexists. split; [reflexivity |].
  intros it. rewrite elem_of_selected.
  split; intros (d & Hd & -> & H); exists d; (split; [done |]); (split; [done |]).
  - apply Hsel in H as (Hc & Hsub & Ht). split; [| done].
    destruct q as [| c q'].
    + left. rewrite Forall_forall in Htitle.
      destruct (Htitle eq_refl d Hd) as [s Hsd].
      exists s. split; [done |]. by exists "", (lower_str s).
    + by apply Ht.
  - destruct H as (Ht & Hc & Hsub). apply Hsel. split; [done |]. split; [done |].
    intros v Hv. destruct q; [done |]. by injection Hv as <-.
Qed.

Lemma literal_query_is_substring_search_witness :
  literal "neem" ∧
  ∃ items,
    (list_products (Some "neem") None None fresh).1 = Ok (R200 (BItems items)) ∧
    ∀ it, it ∈ items ↔
      ∃ d, d ∈ docs_of (ensure_seed_data fresh).2 "product" ∧
           it = with_str_id (env fresh) d ∧
           (field_contains d "title" "neem" ∨ field_contains d "description" "neem") ∧
           field_is "category" None d ∧
           field_is "subcategory" None d.
Proof.
  assert (L : literal "neem") by (repeat constructor).
  split; [exact L |].
  apply (literal_query_is_substring_search fresh "neem" None None L).
  - intros H. discriminate H.
  - vm_compute. reflexivity.
Defined.

Lemma not_field_contains (d : doc) field q s :
  str_field d field = Some s →
  search true (lits q) s = false →
  ¬ field_contains d field q.
Proof.
  intros Hs Hn (s' & Hs' & Hc). rewrite Hs in Hs'. injection Hs' as <-.
  apply search_lits in Hc. congruence.
Qed.

(** C2 as stated fails for a pattern with metacharacters: the query
    [ne.m] returns the product titled "Neem Herbal Oil", although neither
    its title nor its description contains the four characters [ne.m]. *)
Lemma regex_query_is_not_substring_search :
  dotted_query_response = Ok (R200 (BItems (items_of dotted_query_response))) ∧
  map (λ it, (str_field it "title", str_field it "description"))
    (items_of dotted_query_response) =
    [(Some "Neem Herbal Oil", Some "Cold-pressed neem oil for skin and scalp.")] ∧
  Forall (λ it, ¬ (field_contains it "title" "ne.m" ∨
                   field_contains it "description" "ne.m"))
    (items_of dotted_query_response).
Proof.
  split; [vm_compute; reflexivity |].
  assert (Hm : map (λ it, (str_field it "title", str_field it "description"))
                 (items_of dotted_query_response) =
               [(Some "Neem Herbal Oil",
                 Some "Cold-pressed neem oil for skin and scalp.")])
    by (vm_compute; reflexivity).
  split; [exact Hm |].
  remember (items_of dotted_query_response) as items eqn:E. clear E.
  destruct items as [| it [| it' items]]; try discriminate Hm.
  injection Hm as Ht Hd.
  constructor; [| constructor].
  intros [H | H]; revert H.
  - apply (not_field_contains _ _ _ _ Ht). vm_compute. reflexivity.
  - apply (not_field_contains _ _ _ _ Hd). vm_compute. reflexivity.
Qed.

(** * Further properties of the code *)

(** ** What validation accepts *)

Lemma required_inr {A} field (s : slot A) a :
  required field s = inr a ↔ s = Given a.
Proof. destruct s; simpl; split; intros H; by simplify_eq. Qed.

Lemma optional_inr {A} field (d : A) (s : slot A) a :
  optional field d s = inr a ↔ s = Missing ∧ a = d ∨ s = Given a.
Proof.
  destruct s; simpl; split; intros H; try destruct H as [[? ?] | ?];
    simplify_eq; auto.
Qed.

Lemma check_inr {A} field (ok : A → bool) c (r : list verror + A) a :
  check field ok c r = inr a ↔ r = inr a ∧ ok a = true.
Proof.
  destruct r as [e | b]; simpl.
  - split; [done | by intros [? _]].
  - destruct (ok b) eqn:Hb; split.
    + intros [= <-]. done.
    + by intros [? _].
    + done.
    + intros [[= <-] H]. congruence.
Qed.

Lemma validate_review_components x r :
  validate_review x = inr r ↔
  required "name" (rp_name x) = inr (r_name r) ∧
  check "rating" (λ n, n <=? 5) (CLe 5)
    (check "rating" (λ n, 1 <=? n) (CGe 1) (required "rating" (rp_rating x)))
  = inr (r_rating r) ∧
  required "comment" (rp_comment x) = inr (r_comment r) ∧
  optional "source" (Some "website") (rp_source x) = inr (r_source r).
Proof.
  unfold validate_review.
  destruct (required "name" (rp_name x)),
    (check "rating" (λ n, n <=? 5) (CLe 5)
       (check "rating" (λ n, 1 <=? n) (CGe 1) (required "rating" (rp_rating x)))),
    (required "comment" (rp_comment x)),
    (optional "source" (Some "website") (rp_source x));
    destruct r; simpl; split; intros H;
    try (destruct H as (? & ? & ? & ?)); by simplify_eq.
Qed.

Lemma validate_review_bounds x r :
  validate_review x = inr r → 1 ≤ r_rating r ≤ 5.
Proof.
  rewrite validate_review_components, !check_inr, !Z.leb_le. tauto.
Qed.

Lemma validate_product_components x p :
  validate_product x = inr p ↔
  required "title" (pp_title x) = inr (p_title p) ∧
  optional "description" None (pp_description x) = inr (p_description p) ∧
  check "price" Qge0 (CGe 0) (required "price" (pp_price x)) = inr (p_price p) ∧
  required "category" (pp_category x) = inr (p_category p) ∧
  optional "subcategory" None (pp_subcategory x) = inr (p_subcategory p) ∧
  optional "image" None (pp_image x) = inr (p_image p) ∧
  optional "in_stock" true (pp_in_stock x) = inr (p_in_stock p).
Proof.
  unfold validate_product.
  destruct (required "title" (pp_title x)),
    (optional "description" None (pp_description x)),
    (check "price" Qge0 (CGe 0) (required "price" (pp_price x))),
    (required "category" (pp_category x)),
    (optional "subcategory" None (pp_subcategory x)),
    (optional "image" None (pp_image x)),
    (optional "in_stock" true (pp_in_stock x));
    destruct p; simpl; split; intros H;
    try (destruct H as (? & ? & ? & ? & ? & ? & ?));
    first [by simplify_eq | injection H; intros; by subst].
Qed.

Lemma validate_product_bounds x p :
  validate_product x = inr p → (0 # 1 <= p_price p)%Q.
Proof.
  rewrite validate_product_components, check_inr. unfold Qge0.
  rewrite Qle_bool_iff. tauto.
Qed.

(** X1.  A review body is accepted exactly when name and comment are
    given, the rating is given and lies between 1 and 5, and the source
    is either given or absent, in which case it becomes "website". *)
Theorem review_accepted_iff x r :
  validate_review x = inr r ↔
  rp_name x = Given (r_name r) ∧
  rp_rating x = Given (r_rating r) ∧ 1 ≤ r_rating r ≤ 5 ∧
  rp_comment x = Given (r_comment r) ∧
  (rp_source x = Missing ∧ r_source r = Some "website" ∨
   rp_source x = Given (r_source r)).
Proof.
  rewrite validate_review_components.
  rewrite !check_inr, !required_inr, optional_inr, !Z.leb_le. tauto.
Qed.

(** X2.  A product body is accepted exactly when title and category are
    given, the price is given and not negative, and each other field is
    given or absent; an absent description, subcategory or image becomes
    null and an absent [in_stock] becomes true. *)
Theorem product_accepted_iff x p :
  validate_product x = inr p ↔
  pp_title x = Given (p_title p) ∧
  (pp_description x = Missing ∧ p_description p = None ∨
   pp_description x = Given (p_description p)) ∧
  (pp_price x = Given (p_price p) ∧ (0 # 1 <= p_price p)%Q) ∧
  pp_category x = Given (p_category p) ∧
  (pp_subcategory x = Missing ∧ p_subcategory p = None ∨
   pp_subcategory x = Given (p_subcategory p)) ∧
  (pp_image x = Missing ∧ p_image p = None ∨ pp_image x = Given (p_image p)) ∧
  (pp_in_stock x = Missing ∧ p_in_stock p = true ∨
   pp_in_stock x = Given (p_in_stock p)).
Proof.
  rewrite validate_product_components.
  rewrite check_inr, !required_inr, !optional_inr.
  unfold Qge0. by rewrite Qle_bool_iff.
Qed.

Lemma check_email_inr field (validate : string → option string)
    (r : list verror + string) a :
  check_email field validate r = inr a ↔ ∃ raw, r = inr raw ∧ validate raw = Some a.
Proof.
  destruct r as [e | b]; simpl.
  - split; [done | by intros (? & ? & _)].
  - destruct (validate b) as [b' |] eqn:Hb; split.
    + intros [= <-]. by exists b.
    + intros (raw & [= <-] & H). congruence.
    + done.
    + intros (raw & [= <-] & H). congruence.
Qed.

Lemma email_given (validate : string → option string) (s : slot string) a :
  (∃ raw, required "email" s = inr raw ∧ validate raw = Some a) ↔
  (∃ raw, s = Given raw ∧ validate raw = Some a).
Proof.
  split; intros (raw & H & Hv); exists raw; (split; [| done]);
    by apply (required_inr "email").
Qed.

(** X3.  A consultation body is accepted exactly when full name and mode
    are given and the e-mail is given and well formed, and the record then
    holds the address as the e-mail library normalises it (an absent
    service becomes "ayurvedic"); a contact body exactly when full name,
    topic and message are given and the e-mail is given and well formed,
    the record again holding the normalised address (an absent channel
    becomes "general"). *)
Theorem consultation_and_contact_accepted_iff valid_email :
  (∀ x c,
     validate_consultation valid_email x = inr c ↔
     cp_full_name x = Given (c_full_name c) ∧
     (∃ raw, cp_email x = Given raw ∧ valid_email raw = Some (c_email c)) ∧
     (cp_phone x = Missing ∧ c_phone c = None ∨ cp_phone x = Given (c_phone c)) ∧
     cp_mode x = Given (c_mode c) ∧
     (cp_preferred_date x = Missing ∧ c_preferred_date c = None ∨
      cp_preferred_date x = Given (c_preferred_date c)) ∧
     (cp_message x = Missing ∧ c_message c = None ∨
      cp_message x = Given (c_message c)) ∧
     (cp_service x = Missing ∧ c_service c = "ayurvedic" ∨
      cp_service x = Given (c_service c))) ∧
  (∀ x m,
     validate_contact valid_email x = inr m ↔
     mp_full_name x = Given (m_full_name m) ∧
     (∃ raw, mp_email x = Given raw ∧ valid_email raw = Some (m_email m)) ∧
     mp_topic x = Given (m_topic m) ∧
     mp_message x = Given (m_message m) ∧
     (mp_channel x = Missing ∧ m_channel m = Some "general" ∨
      mp_channel x = Given (m_channel m))).
Proof.
  split.
  - intros x c.
    assert (validate_consultation valid_email x = inr c ↔
            required "full_name" (cp_full_name x) = inr (c_full_name c) ∧
            check_email "email" valid_email (required "email" (cp_email x))
              = inr (c_email c) ∧
            optional "phone" None (cp_phone x) = inr (c_phone c) ∧
            required "mode" (cp_mode x) = inr (c_mode c) ∧
            optional "preferred_date" None (cp_preferred_date x)
              = inr (c_preferred_date c) ∧
            optional "message" None (cp_message x) = inr (c_message c) ∧
            optional "service" "ayurvedic" (cp_service x) = inr (c_service c)) as ->.
    { unfold validate_consultation.
      destruct (required "full_name" (cp_full_name x)),
        (check_email "email" valid_email (required "email" (cp_email x))),
        (optional "phone" None (cp_phone x)),
        (required "mode" (cp_mode x)),
        (optional "preferred_date" None (cp_preferred_date x)),
        (optional "message" None (cp_message x)),
        (optional "service" "ayurvedic" (cp_service x));
        destruct c; simpl; split; intros H;
        try (destruct H as (? & ? & ? & ? & ? & ? & ?));
      first [by simplify_eq | injection H; intros; by subst]. }
    by rewrite check_email_inr, email_given, !required_inr, !optional_inr.
  - intros x m.
    assert (validate_contact valid_email x = inr m ↔
            required "full_name" (mp_full_name x) = inr (m_full_name m) ∧
            check_email "email" valid_email (required "email" (mp_email x))
              = inr (m_email m) ∧
            required "topic" (mp_topic x) = inr (m_topic m) ∧
            required "message" (mp_message x) = inr (m_message m) ∧
            optional "channel" (Some "general") (mp_channel x) = inr (m_channel m))
      as ->.
    { unfold validate_contact.
      destruct (required "full_name" (mp_full_name x)),
        (check_email "email" valid_email (required "email" (mp_email x))),
        (required "topic" (mp_topic x)),
        (required "message" (mp_message x)),
        (optional "channel" (Some "general") (mp_channel x));
        destruct m; simpl; split; intros H;
        try (destruct H as (? & ? & ? & ? & ?)); by simplify_eq. }
    by rewrite check_email_inr, email_given, !required_inr, !optional_inr.
Qed.

Lemma check_rejects {A} field (ok : A → bool) c (s : slot A) a :
  s = Given a → ok a = false →
  check field ok c (required field s) = inl [ {| loc := field; violated := c |} ].
Proof. intros -> H. simpl. by rewrite H. Qed.

Lemma check_email_rejects field (validate : string → option string)
    (s : slot string) a :
  s = Given a → validate a = None →
  check_email field validate (required field s)
  = inl [ {| loc := field; violated := CEmail |} ].
Proof. intros -> H. simpl. by rewrite H. Qed.

(** X4.  A product body with a negative price is rejected with an error
    at [price] naming the bound 0, and [POST /api/products] then leaves
    the world as it was. *)
Theorem negative_price_rejected valid_email x q w :
  pp_price x = Given q →
  (q < 0 # 1)%Q →
  ∃ errs,
    validate_product x = inl errs ∧
    {| loc := "price"; violated := CGe 0 |} ∈ errs ∧
    handle valid_email (POST_products x) w = (Ok (R422 errs), w).
Proof.
  intros Hp Hq.
  assert (Qge0 q = false) as Hb.
  { unfold Qge0. destruct (Qle_bool (0 # 1) q) eqn:E; [| done].
    apply Qle_bool_iff in E. by apply Qlt_not_le in Hq. }
  assert (∃ errs, validate_product x = inl errs ∧
                  {| loc := "price"; violated := CGe 0 |} ∈ errs)
    as (errs & Hv & He).
  { unfold validate_product.
    rewrite (check_rejects "price" Qge0 (CGe 0) _ q Hp Hb).
    destruct (required "title" (pp_title x)),
      (optional "description" None (pp_description x)),
      (required "category" (pp_category x)),
      (optional "subcategory" None (pp_subcategory x)),
      (optional "image" None (pp_image x)),
      (optional "in_stock" true (pp_in_stock x));
      (eexists; split; [reflexivity |]);
      simpl; rewrite ?elem_of_app, ?elem_of_cons; auto 10. }
  exists errs. split; [done |]. split; [done |].
  simpl. by apply with_body_rejected.
Qed.

(** X5.  A consultation or contact body whose e-mail is not well formed is
    rejected with an error at [email], and the request leaves the world
    as it was. *)
Theorem malformed_email_rejected valid_email e w :
  valid_email e = None →
  (∀ x, cp_email x = Given e →
     ∃ errs, validate_consultation valid_email x = inl errs ∧
             {| loc := "email"; violated := CEmail |} ∈ errs ∧
             handle valid_email (POST_consultations x) w = (Ok (R422 errs), w)) ∧
  (∀ x, mp_email x = Given e →
     ∃ errs, validate_contact valid_email x = inl errs ∧
             {| loc := "email"; violated := CEmail |} ∈ errs ∧
             handle valid_email (POST_contact x) w = (Ok (R422 errs), w)).
Proof.
  intros He. split; intros x Hx.
  - assert (∃ errs, validate_consultation valid_email x = inl errs ∧
                    {| loc := "email"; violated := CEmail |} ∈ errs)
      as (errs & Hv & Hin).
    { unfold validate_consultation.
      rewrite (check_email_rejects "email" valid_email _ e Hx He).
      destruct (required "full_name" (cp_full_name x)),
        (optional "phone" None (cp_phone x)),
        (required "mode" (cp_mode x)),
        (optional "preferred_date" None (cp_preferred_date x)),
        (optional "message" None (cp_message x)),
        (optional "service" "ayurvedic" (cp_service x));
        (eexists; split; [reflexivity |]);
        simpl; rewrite ?elem_of_app, ?elem_of_cons; auto 10. }
    exists errs. split; [done |]. split; [done |].
    simpl. by apply with_body_rejected.
  - assert (∃ errs, validate_contact valid_email x = inl errs ∧
                    {| loc := "email"; violated := CEmail |} ∈ errs)
      as (errs & Hv & Hin).
    { unfold validate_contact.
      rewrite (check_email_rejects "email" valid_email _ e Hx He).
      destruct (required "full_name" (mp_full_name x)),
        (required "topic" (mp_topic x)),
        (required "message" (mp_message x)),
        (optional "channel" (Some "general") (mp_channel x));
        (eexists; split; [reflexivity |]);
        simpl; rewrite ?elem_of_app, ?elem_of_cons; auto 10. }
    exists errs. split; [done |]. split; [done |].
    simpl. by apply with_body_rejected.
Qed.

(** ** A program logic for handlers *)

Lemma triple_ret {A} (P : World → Prop) (a : A) (Q : A → World → Prop) E :
  (∀ w, P w → Q a w) → triple P (ret a) Q E.
Proof. intros H w Hw. by apply H. Qed.

Lemma triple_bind {A B} P (m : M A) (k : A → M B) R Q E :
  triple P m R E → (∀ a, triple (R a) (k a) Q E) → triple P (bind m k) Q E.
Proof.
  intros Hm Hk w Hw. unfold bind. specialize (Hm w Hw).
  destruct (m w) as [[a | e] w']; [by apply Hk | done].
Qed.

Lemma triple_try {A} P (m : M A) h Q E' E :
  triple P m Q E' → (∀ e, triple E' (h e) Q E) → triple P (try_except m h) Q E.
Proof.
  intros Hm Hh w Hw. unfold try_except. specialize (Hm w Hw).
  destruct (m w) as [[a | e] w']; [done | by apply Hh].
Qed.

Lemma triple_weaken {A} (P P' : World → Prop) (m : M A) Q E :
  (∀ w, P' w → P w) → triple P m Q E → triple P' m Q E.
Proof. intros HP Hm w Hw. apply Hm. by apply HP. Qed.

Lemma triple_for_each {A} (I : World → Prop) (l : list A) body E :
  (∀ x, x ∈ l → triple I (body x) (λ _, I) E) →
  triple I (for_each l body) (λ _, I) E.
Proof.
  induction l as [| x l IH]; intros Hb; simpl.
  - by apply triple_ret.
  - eapply triple_bind; [apply Hb; apply elem_of_cons; by left |].
    intros ?. apply IH. intros y Hy. apply Hb. apply elem_of_cons. by right.
Qed.

Lemma triple_round_trip {A} (P : World → Prop) no_db
    (op : Env → Store → result A * Store) (Q : A → World → Prop) E :
  (∀ w, P w → E w) →
  (∀ w, P w → E (tick w)) →
  (∀ w, P w →
     match op (env w) (store w) with
     | (Ok a, s) => Q a {| env := env w; store := s; trips := S (trips w) |}
     | (Raise _, s) => E {| env := env w; store := s; trips := S (trips w) |}
     end) →
  triple P (round_trip no_db op) Q E.
Proof.
  intros H1 H2 H3 w Hw. unfold round_trip.
  destruct (db_name (env w)) as [name |]; [| by apply H1].
  destruct (fault (env w) (trips w)); [by apply H2 |].
  specialize (H3 w Hw). by destruct (op (env w) (store w)) as [[a | e] st].
Qed.

Lemma triple_count_documents (J : Store → Prop) coll :
  triple (λ w, J (store w)) (count_documents coll)
    (λ n w, J (store w) ∧ n = Z.of_nat (length (coll_of (store w) coll)))
    (λ w, J (store w)).
Proof. apply triple_round_trip; intros w Hw; simpl; auto. Qed.

Lemma preserves_ret {A} J (a : A) : preserves J (ret a).
Proof. by apply triple_ret. Qed.

Lemma preserves_bind {A B} J (m : M A) (k : A → M B) :
  preserves J m → (∀ a, preserves J (k a)) → preserves J (bind m k).
Proof. intros Hm Hk. eapply triple_bind; [exact Hm | exact Hk]. Qed.

Lemma preserves_try {A} J (m : M A) h :
  preserves J m → (∀ e, preserves J (h e)) → preserves J (try_except m h).
Proof. intros Hm Hh. eapply triple_try; [exact Hm | exact Hh]. Qed.

Lemma preserves_read {A} J no_db (f : Env → Store → result A) :
  preserves J (round_trip no_db (λ e s, (f e s, s))).
Proof.
  apply triple_round_trip; intros w Hw; simpl; auto.
  by destruct (f (env w) (store w)).
Qed.

Lemma preserves_get_documents J coll filt limit :
  preserves J (get_documents coll filt limit).
Proof.
  apply triple_round_trip; intros w Hw; simpl; auto.
  by destruct (compile_filter (env w) filt).
Qed.

Lemma preserves_create_document J coll fields :
  (∀ s, J s → J (inserted coll fields s)) →
  preserves J (create_document coll fields).
Proof.
  intros H. apply triple_round_trip; intros w Hw; simpl; auto.
  by apply H.
Qed.

Lemma preserves_stringify_ids J items : preserves J (stringify_ids items).
Proof. by intros w Hw. Qed.

Lemma preserves_now J : preserves J now.
Proof. by intros w Hw. Qed.

Lemma preserves_test_database J : preserves J test_database.
Proof.
  intros w Hw. unfold test_database.
  destruct (db_name (env w)); [| done].
  assert (H : preserves J list_collection_names) by apply preserves_read.
  specialize (H w Hw).
  by destruct (list_collection_names w) as [[names | e] w'].
Qed.

Lemma triple_guarded {A} J coll (fields : A → doc) l n :
  seeding_keeps J coll fields l →
  triple (λ w, J (store w) ∧ n = Z.of_nat (length (coll_of (store w) coll)))
    (if n =? 0
     then for_each l (λ x, let* _ := create_document coll (fields x) in ret tt)
     else ret tt)
    (λ _ w, J (store w)) (λ w, J (store w)).
Proof.
  intros Hs. destruct (n =? 0) eqn:Hn.
  - destruct Hs as [Hne | Hins].
    + intros w [HJ Hlen]. exfalso. apply (Hne _ HJ).
      apply Z.eqb_eq in Hn. destruct (coll_of (store w) coll); [done |].
      simpl in Hlen. lia.
    + eapply triple_weaken; [intros w [HJ _]; exact HJ |].
      apply triple_for_each. intros x Hx.
      apply preserves_bind; [| intros ?; apply preserves_ret].
      apply preserves_create_document. intros s. by apply Hins.
  - apply triple_ret. by intros w [HJ _].
Qed.

Lemma preserves_ensure_seed_data J :
  seeding_keeps J "product" product_fields samples →
  seeding_keeps J "review" review_fields sample_reviews →
  seeding_keeps J "blogpost" blogpost_fields sample_posts →
  preserves J ensure_seed_data.
Proof.
  intros Hp Hr Hb.
  apply preserves_try; [| intros ?; apply preserves_ret].
  unfold seed_body.
  eapply triple_bind; [apply triple_count_documents |]. intros n1.
  eapply triple_bind; [by apply triple_guarded |]. intros ?.
  eapply triple_bind; [apply triple_count_documents |]. intros n2.
  eapply triple_bind; [by apply triple_guarded |]. intros ?.
  eapply triple_bind; [apply triple_count_documents |]. intros n3.
  by apply triple_guarded.
Qed.

Lemma preserves_final {A} J (m : M A) w :
  preserves J m → J (store w) → J (store (m w).2).
Proof.
  intros Hm Hw. specialize (Hm w Hw). by destruct (m w) as [[a | e] w'].
Qed.

Lemma coll_of_inserted coll fields s c :
  coll_of (inserted coll fields s) c =
  if decide (coll = c)
  then coll_of s coll ++ [<["_id" := VId (next_id s)]> fields]
  else coll_of s c.
Proof. apply coll_of_insert. Qed.

Lemma seeding_keeps_other {A} c L coll (fields : A → doc) l :
  coll ≠ c → seeding_keeps (λ s, coll_of s c = L) coll fields l.
Proof.
  intros Hne. right. intros s x _ Hs.
  rewrite coll_of_inserted. by rewrite decide_False.
Qed.

Lemma seeding_keeps_nonempty {A} c L coll (fields : A → doc) l :
  L ≠ [] → seeding_keeps (λ s, coll_of s c = L) coll fields l.
Proof.
  intros HL. destruct (decide (coll = c)) as [-> | Hne].
  - left. intros s Hs. by rewrite Hs.
  - by apply seeding_keeps_other.
Qed.

(** X6.  Whatever the store does, the seeding routine leaves every
    non-empty collection exactly as it was, and never touches a
    collection other than product, review and blogpost. *)
Theorem seeding_touches_only_empty_collections w c :
  docs_of w c ≠ [] ∨ (c ≠ "product" ∧ c ≠ "review" ∧ c ≠ "blogpost") →
  docs_of (ensure_seed_data w).2 c = docs_of w c.
Proof.
  intros H.
  apply (preserves_final (λ s, coll_of s c = docs_of w c) ensure_seed_data w);
    [| done].
  destruct H as [H | (Hp & Hr & Hb)].
  - apply preserves_ensure_seed_data; by apply seeding_keeps_nonempty.
  - apply preserves_ensure_seed_data; by apply seeding_keeps_other.
Qed.

(** ** The declared bounds hold of everything stored *)

Lemma bounds_inserted_other coll fields s :
  coll ≠ "review" → coll ≠ "product" →
  bounds_kept s → bounds_kept (inserted coll fields s).
Proof.
  intros Hr Hp [H1 H2]. unfold bounds_kept.
  rewrite !coll_of_inserted. by rewrite !decide_False.
Qed.

Lemma bounds_inserted_review r s :
  1 ≤ r_rating r ≤ 5 →
  bounds_kept s → bounds_kept (inserted "review" (review_fields r) s).
Proof.
  intros Hr [H1 H2]. unfold bounds_kept.
  rewrite !coll_of_inserted. repeat case_decide; try done.
  split; [| done]. apply Forall_app. split; [done |].
  apply Forall_singleton. exists (r_rating r). split; [| done].
  rewrite lookup_insert_ne by done. unfold review_fields.
  rewrite lookup_insert_ne by done. by rewrite lookup_insert_eq.
Qed.

Lemma bounds_inserted_product p s :
  (0 # 1 <= p_price p)%Q →
  bounds_kept s → bounds_kept (inserted "product" (product_fields p) s).
Proof.
  intros Hp [H1 H2]. unfold bounds_kept.
  rewrite !coll_of_inserted. repeat case_decide; try done.
  split; [done |]. apply Forall_app. split; [done |].
  apply Forall_singleton. exists (p_price p). split; [| done].
  rewrite lookup_insert_ne by done. unfold product_fields.
  rewrite !lookup_insert_ne by done. by rewrite lookup_insert_eq.
Qed.

Lemma samples_bounds : Forall (λ p, (0 # 1 <= p_price p)%Q) samples.
Proof. repeat constructor; by apply Qle_bool_iff. Qed.

Lemma sample_reviews_bounds : Forall (λ r, 1 ≤ r_rating r ≤ 5) sample_reviews.
Proof. repeat constructor; simpl; lia. Qed.

Lemma preserves_bounds_seeding : preserves bounds_kept ensure_seed_data.
Proof.
  apply preserves_ensure_seed_data; right; intros s x Hx Hs.
  - apply bounds_inserted_product; [| done].
    by apply (proj1 (Forall_forall _ _) samples_bounds).
  - apply bounds_inserted_review; [| done].
    by apply (proj1 (Forall_forall _ _) sample_reviews_bounds).
  - by apply bounds_inserted_other.
Qed.

Lemma preserves_with_body {P A} J (validate : P → list verror + A) handler payload :
  (∀ a, validate payload = inr a → preserves J (handler a)) →
  preserves J (with_body validate handler payload).
Proof.
  intros H. unfold with_body.
  destruct (validate payload) as [errs | a]; [apply preserves_ret | by apply H].
Qed.

Lemma preserves_creating J coll fields (reply : string → body) :
  (∀ s, J s → J (inserted coll fields s)) →
  preserves J
    (try_except (let* id := create_document coll fields in ret (R200 (reply id)))
       (λ e, ret (R500 e))).
Proof.
  intros H. apply preserves_try; [| intros ?; apply preserves_ret].
  apply preserves_bind; [by apply preserves_create_document |].
  intros ?. apply preserves_ret.
Qed.

Lemma preserves_listing J coll filt limit :
  preserves J
    (try_except
       (let* items := get_documents coll filt limit in
        let* items := stringify_ids items in
        ret (R200 (BItems items)))
       (λ e, ret (R500 e))).
Proof.
  apply preserves_try; [| intros ?; apply preserves_ret].
  apply preserves_bind; [apply preserves_get_documents |]. intros ?.
  apply preserves_bind; [apply preserves_stringify_ids |]. intros ?.
  apply preserves_ret.
Qed.

(** X7.  Every request keeps the declared bounds true of the store: if
    each stored review has a rating between 1 and 5 and each stored
    product a price that is not negative, the same holds after the
    request, whatever it was and however it ended. *)
Theorem bounds_are_invariant valid_email r w :
  bounds_kept (store w) →
  bounds_kept (store (handle valid_email r w).2).
Proof.
  apply preserves_final. destruct r; simpl.
  - apply preserves_ret.
  - apply preserves_test_database.
  - apply preserves_ret.
  - apply preserves_bind; [apply preserves_bounds_seeding |]. intros ?.
    apply preserves_listing.
  - apply preserves_with_body. intros p Hp. apply preserves_creating.
    intros s. apply bounds_inserted_product. by eapply validate_product_bounds.
  - apply preserves_with_body. intros n Hn. apply preserves_listing.
  - apply preserves_with_body. intros rv Hr. apply preserves_creating.
    intros s. apply bounds_inserted_review. by eapply validate_review_bounds.
  - apply preserves_bind; [apply preserves_bounds_seeding |]. intros ?.
    apply preserves_listing.
  - apply preserves_with_body. intros b Hb. unfold create_blog.
    apply preserves_try; [| intros ?; apply preserves_ret].
    apply preserves_bind.
    + destruct (b_published_at b).
      * apply preserves_ret.
      * apply preserves_bind; [apply preserves_now | intros ?; apply preserves_ret].
    + intros b'. apply preserves_bind; [| intros ?; apply preserves_ret].
      apply preserves_create_document. intros s. by apply bounds_inserted_other.
  - apply preserves_ret.
  - apply preserves_with_body. intros c Hc. apply preserves_creating.
    intros s. by apply bounds_inserted_other.
  - apply preserves_with_body. intros m Hm. apply preserves_creating.
    intros s. by apply bounds_inserted_other.
Qed.

(** ** Seeding a reachable store *)

Lemma healthy_store_error w : healthy_from w → store_error w = None.
Proof.
  intros [[name Hn] Hf]. unfold store_error. rewrite Hn. by apply Hf.
Qed.

Lemma healthy_next w s :
  healthy_from w →
  healthy_from {| env := env w; store := s; trips := S (trips w) |}.
Proof.
  intros [Hn Hf]. split; [done |]. intros n Hle. apply Hf. simpl in Hle. lia.
Qed.

Lemma count_documents_ok coll w :
  store_error w = None →
  count_documents coll w = (Ok (Z.of_nat (length (docs_of w coll))), tick w).
Proof.
  intros H. unfold count_documents. by rewrite (store_error_none w H).
Qed.

Lemma for_each_create_healthy {A} coll (fields : A → doc) l w :
  healthy_from w →
  ∃ w', for_each l (λ x, let* _ := create_document coll (fields x) in ret tt) w
          = (Ok tt, w') ∧
        env w' = env w ∧
        healthy_from w' ∧
        (∀ c, c ≠ coll → docs_of w' c = docs_of w c) ∧
        docs_of w' coll =
          docs_of w coll ++ numbered (next_id (store w)) (map fields l) ∧
        next_id (store w') = (next_id (store w) + N.of_nat (length l))%N.
Proof.
  revert w. induction l as [| x l IH]; intros w Hw.
  - exists w. split; [done |]. split; [done |]. split; [done |]. split; [done |].
    simpl. split; [by rewrite app_nil_r | lia].
  - pose proof (create_document_ok coll (fields x) w (healthy_store_error w Hw)) as Hc.
    destruct (IH _ (healthy_next w (inserted coll (fields x) (store w)) Hw))
      as (w' & Hrun & Henv & Hh & Hother & Hnew & Hnext).
    exists w'. split.
    { simpl. rewrite (bind_ok _ _ _ _ _ (bind_ok _ _ _ _ _ Hc)). exact Hrun. }
    split; [done |]. split; [done |]. split.
    { intros c Hne. rewrite (Hother c Hne). unfold docs_of; simpl.
      rewrite coll_of_insert. by rewrite decide_False. }
    split.
    + rewrite Hnew. unfold docs_of at 1; simpl.
      rewrite coll_of_insert, decide_True by done.
      by rewrite <- app_assoc.
    + rewrite Hnext. simpl. lia.
Qed.

Lemma seed_if_healthy {A} coll (fields : A → doc) l w :
  healthy_from w →
  l ≠ [] →
  ∃ w', (if Z.of_nat (length (docs_of w coll)) =? 0
         then for_each l (λ x, let* _ := create_document coll (fields x) in ret tt)
         else ret tt) (tick w) = (Ok tt, w') ∧
        stage_post coll (map fields l) w w'.
Proof.
  intros Hw Hl.
  assert (Ht : healthy_from (tick w)) by apply (healthy_next w (store w) Hw).
  unfold stage_post, seeded_into.
  destruct (docs_of w coll) as [| d ds] eqn:Hd.
  - destruct (for_each_create_healthy coll fields l (tick w) Ht)
      as (w' & Hrun & Henv & Hh & Hother & Hnew & Hnext).
    exists w'. split; [exact Hrun |].
    change (docs_of (tick w) coll) with (docs_of w coll) in Hnew.
    rewrite Hd in Hnew. simpl in Hnew.
    split; [done |]. split; [done |]. split; [done |]. split; [done |].
    split; [by rewrite Hnext, length_map |].
    rewrite Hnew. destruct l; [done | discriminate].
  - exists (tick w). split; [done |].
    change (docs_of (tick w) coll) with (docs_of w coll). rewrite Hd.
    split; [done |]. split; [done |]. split; [done |].
    split; [by rewrite app_nil_r |]. split; [simpl; lia | done].
Qed.

Lemma seed_body_healthy w :
  healthy_from w →
  ∃ w1 w2 w3,
    seed_body w = (Ok tt, w3) ∧
    stage_post "product" product_placeholders w w1 ∧
    stage_post "review" review_placeholders w1 w2 ∧
    stage_post "blogpost" post_placeholders w2 w3.
Proof.
  intros Hw.
  destruct (seed_if_healthy "product" product_fields samples w Hw)
    as (w1 & Hr1 & H1); [done |].
  pose proof H1 as (_ & Hw1 & _).
  destruct (seed_if_healthy "review" review_fields sample_reviews w1 Hw1)
    as (w2 & Hr2 & H2); [done |].
  pose proof H2 as (_ & Hw2 & _).
  destruct (seed_if_healthy "blogpost" blogpost_fields sample_posts w2 Hw2)
    as (w3 & Hr3 & H3); [done |].
  exists w1, w2, w3. split; [| done].
  unfold seed_body.
  rewrite (bind_ok _ _ _ _ _ (count_documents_ok "product" w (healthy_store_error w Hw))).
  rewrite (bind_ok _ _ _ _ _ Hr1).
  rewrite (bind_ok _ _ _ _ _ (count_documents_ok "review" w1 (healthy_store_error w1 Hw1))).
  rewrite (bind_ok _ _ _ _ _ Hr2).
  rewrite (bind_ok _ _ _ _ _ (count_documents_ok "blogpost" w2 (healthy_store_error w2 Hw2))).
  exact Hr3.
Qed.

Lemma numbered_app n l1 l2 :
  numbered n (l1 ++ l2) = numbered n l1 ++ numbered (n + N.of_nat (length l1)) l2.
Proof.
  revert n. induction l1 as [| d l1 IH]; intros n; simpl.
  - by rewrite N.add_0_r.
  - rewrite IH. do 3 f_equal. lia.
Qed.

Lemma numbered_ids n l :
  map (λ d : doc, d !! "_id") (numbered n l) =
  map (λ i, Some (VId (n + N.of_nat i))) (seq 0 (length l)).
Proof.
  revert n. induction l as [| d l IH]; intros n; simpl; [done |].
  rewrite lookup_insert_eq, N.add_0_r. f_equal.
  rewrite IH, <- seq_shift, map_map. apply map_ext. intros i. do 2 f_equal. lia.
Qed.

Lemma numbered_distinct n l : NoDup (map (λ d : doc, d !! "_id") (numbered n l)).
Proof.
  rewrite numbered_ids. apply NoDup_ListNoDup, Finite.Injective_map_NoDup.
  - intros i j [= H]. lia.
  - apply seq_NoDup.
Qed.

Lemma seeded_into_same w w' coll placeholders :
  docs_of w' coll = docs_of w coll →
  seeded_into w' coll placeholders = seeded_into w coll placeholders.
Proof. intros H. unfold seeded_into. by rewrite H. Qed.

(** X8.  On a store that answers, the seeding routine fills what is
    empty and pins the identifiers.  After it, each of the product, review
    and blogpost collections is what it was, followed (if it was empty) by
    exactly the placeholders of the source, in order; the documents it
    inserted carry consecutive identifiers starting at the store's next
    identifier, products first, then reviews, then posts, so that they are
    pairwise distinct; the store's next identifier has advanced past them;
    and all three collections are non-empty. *)
Theorem seeding_fills_empty_collections w :
  healthy_from w →
  docs_of (ensure_seed_data w).2 "product" =
    docs_of w "product" ++
    numbered (next_id (store w)) (seeded_into w "product" product_placeholders) ∧
  docs_of (ensure_seed_data w).2 "review" =
    docs_of w "review" ++
    numbered (next_id (store w) +
              N.of_nat (length (seeded_into w "product" product_placeholders)))
      (seeded_into w "review" review_placeholders) ∧
  docs_of (ensure_seed_data w).2 "blogpost" =
    docs_of w "blogpost" ++
    numbered (next_id (store w) +
              N.of_nat (length (seeded_into w "product" product_placeholders)) +
              N.of_nat (length (seeded_into w "review" review_placeholders)))
      (seeded_into w "blogpost" post_placeholders) ∧
  NoDup (map (λ d : doc, d !! "_id")
           (numbered (next_id (store w))
              (seeded_into w "product" product_placeholders ++
               seeded_into w "review" review_placeholders ++
               seeded_into w "blogpost" post_placeholders))) ∧
  next_id (store (ensure_seed_data w).2) =
    (next_id (store w) +
     N.of_nat (length (seeded_into w "product" product_placeholders ++
                       seeded_into w "review" review_placeholders ++
                       seeded_into w "blogpost" post_placeholders)))%N ∧
  docs_of (ensure_seed_data w).2 "product" ≠ [] ∧
  docs_of (ensure_seed_data w).2 "review" ≠ [] ∧
  docs_of (ensure_seed_data w).2 "blogpost" ≠ [].
Proof.
  intros Hw.
  destruct (seed_body_healthy w Hw) as (w1 & w2 & w3 & Hrun & H1 & H2 & H3).
  rewrite ensure_seed_data_world, Hrun. simpl.
  destruct H1 as (_ & _ & O1 & D1 & I1 & N1).
  destruct H2 as (_ & _ & O2 & D2 & I2 & N2).
  destruct H3 as (_ & _ & O3 & D3 & I3 & N3).
  rewrite (seeded_into_same w w1 "review") in D2, I2 by (by apply O1).
  rewrite (seeded_into_same w w2 "blogpost") in D3, I3
    by (by rewrite (O2 "blogpost"), (O1 "blogpost")).
  rewrite (O3 "product"), (O2 "product") by done.
  rewrite (O3 "review") by done.
  split; [done |].
  split; [by rewrite D2, (O1 "review"), I1 |].
  split; [by rewrite D3, (O2 "blogpost"), (O1 "blogpost"), I2, I1 |].
  split; [apply numbered_distinct |].
  split; [rewrite I3, I2, I1, !length_app; lia |].
  done.
Qed.

(** X9.  On a store that answers, running the seeding routine a second
    time changes nothing: the store after two runs is the store after
    one, whatever it held at first. *)
Theorem seeding_twice_is_seeding_once w :
  healthy_from w →
  store (ensure_seed_data (ensure_seed_data w).2).2 = store (ensure_seed_data w).2.
Proof.
  intros Hw.
  destruct (seed_body_healthy w Hw) as (w1 & w2 & w3 & Hrun & H1 & H2 & H3).
  rewrite (ensure_seed_data_world (ensure_seed_data w).2).
  rewrite (ensure_seed_data_world w), Hrun. simpl.
  destruct H1 as (_ & _ & O1 & _ & _ & N1).
  destruct H2 as (_ & _ & O2 & _ & _ & N2).
  destruct H3 as (_ & _ & O3 & _ & _ & N3).
  apply seed_body_populated; [| | done].
  - by rewrite (O3 "product"), (O2 "product").
  - by rewrite (O3 "review").
Qed.

(** ** Listing *)

Lemma listing_ok coll filt limit w f :
  store_error w = None →
  compile_filter (env w) filt = inr f →
  try_except
    (let* items := get_documents coll filt limit in
     let* items := stringify_ids items in
     ret (R200 (BItems items)))
    (λ e, ret (R500 e)) w =
  (Ok (R200 (BItems (map (with_str_id (env w))
                       (cap limit (List.filter f (docs_of w coll)))))),
   tick w).
Proof.
  intros Hs Hf. unfold try_except, bind.
  by rewrite (get_documents_ok _ _ _ _ _ Hs Hf).
Qed.

Lemma listing_inv coll filt limit w items :
  (try_except
     (let* items := get_documents coll filt limit in
      let* items := stringify_ids items in
      ret (R200 (BItems items)))
     (λ e, ret (R500 e)) w).1 = Ok (R200 (BItems items)) →
  ∃ f, compile_filter (env w) filt = inr f ∧
       items = map (with_str_id (env w)) (cap limit (List.filter f (docs_of w coll))).
Proof.
  unfold try_except, bind.
  destruct (get_documents coll filt limit w) as [[docs | e] w'] eqn:Hg; simpl; [| done].
  destruct (get_documents_inv _ _ _ _ _ _ Hg) as (f & Hf & -> & He).
  intros [= <-]. exists f. by rewrite He.
Qed.

Lemma listing_store coll filt limit w :
  store (try_except
           (let* items := get_documents coll filt limit in
            let* items := stringify_ids items in
            ret (R200 (BItems items)))
           (λ e, ret (R500 e)) w).2 = store w.
Proof.
  unfold try_except, bind.
  pose proof (get_documents_store coll filt limit w) as H.
  by destruct (get_documents coll filt limit w) as [[docs | e] w'].
Qed.

Lemma elem_of_cap {A} (limit : option Z) (l : list A) x : x ∈ cap limit l → x ∈ l.
Proof.
  destruct limit as [n |]; simpl; [| done].
  intros H. apply list_elem_of_lookup in H as [i H].
  apply lookup_take_Some in H as [H _]. by eapply list_elem_of_lookup_2.
Qed.

Lemma length_cap {A} n (l : list A) :
  0 ≤ n → (length (cap (Some n) l) ≤ Z.to_nat n)%nat.
Proof. intros _. simpl. rewrite length_take. lia. Qed.

Lemma listing_items coll filt limit w items :
  (try_except
     (let* items := get_documents coll filt limit in
      let* items := stringify_ids items in
      ret (R200 (BItems items)))
     (λ e, ret (R500 e)) w).1 = Ok (R200 (BItems items)) →
  Forall (λ it, ∃ d, d ∈ docs_of w coll ∧ it = with_str_id (env w) d) items ∧
  (∀ n, limit = Some n → 0 ≤ n → (length items ≤ Z.to_nat n)%nat).
Proof.
  intros H. destruct (listing_inv _ _ _ _ _ H) as (f & Hf & ->). split.
  - apply Forall_forall. intros it Hit.
    apply list_elem_of_In, in_map_iff in Hit as (d & <- & Hd).
    exists d. split; [| done].
    apply list_elem_of_In in Hd. apply elem_of_cap in Hd.
    apply list_elem_of_In, filter_In in Hd as [Hd _]. by apply list_elem_of_In.
  - intros n -> Hn. rewrite length_map. by apply length_cap.
Qed.

Lemma bind_seeding {A} (k : M A) w :
  (let* _ := ensure_seed_data in k) w = k (ensure_seed_data w).2.
Proof.
  unfold bind. pose proof (ensure_seed_data_returns w) as H.
  destruct (ensure_seed_data w) as [r w']; simpl in *. by subst r.
Qed.

(** X10.  Whatever a list endpoint returns was stored: when
    [GET /api/products], [GET /api/reviews] or [GET /api/blog] answers with
    items, each item is a document of that collection as it stands after
    the request, with [_id] replaced by its rendering as a string and every
    other field as stored; and [GET /api/reviews] returns at most [limit]
    items, 50 when no limit is given. *)
Theorem listing_returns_stored_documents valid_email r coll limit w items :
  listed r = Some (coll, limit) →
  (handle valid_email r w).1 = Ok (R200 (BItems items)) →
  Forall (λ it : doc,
            ∃ d : doc, d ∈ docs_of (handle valid_email r w).2 coll ∧
                 it !! "_id" = Some (VStr (py_str (env w) (default VNull (d !! "_id")))) ∧
                 ∀ k, k ≠ "_id" → it !! k = d !! k) items ∧
  (∀ n, limit = Some n → 0 ≤ n → (length items ≤ Z.to_nat n)%nat).
Proof.
  assert (Hshape : ∀ e (d : doc),
            with_str_id e d !! "_id" = Some (VStr (py_str e (default VNull (d !! "_id")))) ∧
            ∀ k, k ≠ "_id" → with_str_id e d !! k = d !! k).
  { intros e d. unfold with_str_id. split; [by rewrite lookup_insert_eq |].
    intros k Hk. by rewrite lookup_insert_ne. }
  intros Hl. destruct r; try discriminate Hl; injection Hl as <- <-; simpl.
  - unfold list_products, list_products_query. rewrite bind_seeding.
    intros H. destruct (listing_items _ _ _ _ _ H) as [Hall Hlen].
    split; [| done]. unfold docs_of. rewrite listing_store.
    rewrite ensure_seed_data_env in Hall.
    eapply Forall_impl; [exact Hall |]. intros it (d & Hd & ->).
    exists d. split; [done |]. apply Hshape.
  - assert (Hrun : ∀ n,
              (get_reviews n w).1 = Ok (R200 (BItems items)) →
              Forall (λ it : doc,
                        ∃ d : doc, d ∈ docs_of (get_reviews n w).2 "review" ∧
                             it !! "_id" = Some (VStr (py_str (env w)
                                                   (default VNull (d !! "_id")))) ∧
                             ∀ k, k ≠ "_id" → it !! k = d !! k) items ∧
              (∀ n', Some n = Some n' → 0 ≤ n' → (length items ≤ Z.to_nat n')%nat)).
    { intros n. unfold get_reviews.
      intros H. destruct (listing_items _ _ _ _ _ H) as [Hall Hlen].
      split; [| done]. unfold docs_of. rewrite listing_store.
      eapply Forall_impl; [exact Hall |]. intros it (d & Hd & ->).
      exists d. split; [done |]. apply Hshape. }
    unfold with_body.
    match goal with
    | |- context [optional "limit" 50 ?l] => destruct l as [| | n]
    end; simpl; [apply Hrun | done | apply Hrun].
  - unfold list_blog. rewrite bind_seeding.
    intros H. destruct (listing_items _ _ _ _ _ H) as [Hall Hlen].
    split; [| done]. unfold docs_of. rewrite listing_store.
    rewrite ensure_seed_data_env in Hall.
    eapply Forall_impl; [exact Hall |]. intros it (d & Hd & ->).
    exists d. split; [done |]. apply Hshape.
Qed.

Lemma products_filter_exact w q category subcategory :
  truthy q = None →
  store_error (ensure_seed_data w).2 = None →
  ∃ items,
    (list_products q category subcategory w).1 = Ok (R200 (BItems items)) ∧
    ∀ it, it ∈ items ↔
      ∃ d, d ∈ docs_of (ensure_seed_data w).2 "product" ∧
           it = with_str_id (env w) d ∧
           field_is "category" category d ∧
           field_is "subcategory" subcategory d.
Proof.
  intros Hq Hs. rewrite list_products_unfold.
  destruct (product_filter_compiled (env (ensure_seed_data w).2)
              q category subcategory) as (f & Hf & Hsel).
  { intros v Hv. by rewrite Hq in Hv. }
  rewrite (list_products_query_ok _ _ _ _ _ Hs Hf). rewrite ensure_seed_data_env.
  eexists. split; [reflexivity |].
  intros it. rewrite elem_of_selected.
  split; intros (d & Hd & -> & H); exists d; (split; [done |]); (split; [done |]).
  - by apply Hsel in H as (Hc & Hsub & _).
  - destruct H as [Hc Hsub]. apply Hsel. split; [done |]. split; [done |].
    intros v Hv. by rewrite Hq in Hv.
Qed.

(** X11.  Without a free-text query (absent or empty), while the store
    answers, the product list returns exactly the stored products whose
    category and subcategory equal the supplied non-empty values; absent
    or empty parameters filter nothing. *)
Theorem products_without_query w q category subcategory :
  truthy q = None →
  store_error (ensure_seed_data w).2 = None →
  ∃ items,
    (list_products q category subcategory w).1 = Ok (R200 (BItems items)) ∧
    ∀ it, it ∈ items ↔
      ∃ d, d ∈ docs_of (ensure_seed_data w).2 "product" ∧
           it = with_str_id (env w) d ∧
           field_is "category" category d ∧
           field_is "subcategory" subcategory d.
Proof. apply products_filter_exact. Qed.

(** X12.  While the store answers, the blog list returns exactly the
    stored posts whose category equals the supplied non-empty value, and
    every stored post when the category is absent or empty. *)
Theorem blog_category_filter w category :
  store_error (ensure_seed_data w).2 = None →
  ∃ items,
    (list_blog category w).1 = Ok (R200 (BItems items)) ∧
    ∀ it, it ∈ items ↔
      ∃ d, d ∈ docs_of (ensure_seed_data w).2 "blogpost" ∧
           it = with_str_id (env w) d ∧
           field_is "category" category d.
Proof.
  intros Hs. unfold list_blog. rewrite bind_seeding.
  destruct (equality_clause (env (ensure_seed_data w).2) "category" category)
    as (f & Hf & Hsel).
  rewrite (listing_ok _ _ _ _ _ Hs Hf). rewrite ensure_seed_data_env.
  eexists. split; [reflexivity |].
  intros it. simpl. rewrite elem_of_selected.
  split; intros (d & Hd & -> & H); exists d; (split; [done |]); (split; [done |]);
    by apply Hsel.
Qed.

(** ** Creating *)

Lemma creating_cases coll fields (reply : string → body) w :
  match store_error w with
  | None =>
      try_except (let* id := create_document coll fields in ret (R200 (reply id)))
        (λ e, ret (R500 e)) w =
      (Ok (R200 (reply (py_str (env w) (VId (next_id (store w)))))),
       {| env := env w; store := inserted coll fields (store w);
          trips := S (trips w) |})
  | Some msg =>
      (try_except (let* id := create_document coll fields in ret (R200 (reply id)))
         (λ e, ret (R500 e)) w).1 = Ok (R500 msg) ∧
      store (try_except (let* id := create_document coll fields in ret (R200 (reply id)))
               (λ e, ret (R500 e)) w).2 = store w
  end.
Proof.
  destruct (store_error w) as [msg |] eqn:Hs.
  - destruct (create_store_error coll fields reply w msg Hs) as (w' & -> & Hw').
    done.
  - unfold try_except, bind. by rewrite (create_document_ok _ _ _ Hs).
Qed.

Lemma create_blog_cases post w :
  match store_error w with
  | None =>
      ∃ fields,
        create_blog post w =
        (Ok (R200 (BCreated (py_str (env w) (VId (next_id (store w)))))),
         {| env := env w; store := inserted "blogpost" fields (store w);
            trips := S (trips w) |})
  | Some msg =>
      (create_blog post w).1 = Ok (R500 msg) ∧
      store (create_blog post w).2 = store w
  end.
Proof.
  unfold create_blog.
  destruct (b_published_at post) as [t |].
  - pose proof (creating_cases "blogpost" (blogpost_fields post) BCreated w) as H.
    destruct (store_error w); [exact H |]. by eexists.
  - pose proof (creating_cases "blogpost"
                  (blogpost_fields (set_published_at post (utcnow (env w))))
                  BCreated w) as H.
    destruct (store_error w); [exact H |]. by eexists.
Qed.

(** X13.  A creating request stores one document or nothing.  For each
    [POST] endpoint: a 422 answer leaves the world as it was; a 500 answer
    carries the message of the failing store and leaves the store as it
    was; a 200 answer means that exactly one document was appended to the
    endpoint's collection, under the identifier the answer carries, and
    nothing else changed; and the request never ends in an exception. *)
Theorem post_stores_one_or_nothing valid_email r coll w :
  target r = Some coll →
  match (handle valid_email r w).1 with
  | Ok (R200 b) =>
      store_error w = None ∧
      created_id b = Some (py_str (env w) (VId (next_id (store w)))) ∧
      ∃ fields, store (handle valid_email r w).2 = inserted coll fields (store w)
  | Ok (R422 _) => (handle valid_email r w).2 = w
  | Ok (R500 msg) =>
      store_error w = Some msg ∧ store (handle valid_email r w).2 = store w
  | Raise _ => False
  end.
Proof.
  intros Ht. destruct r; try discriminate Ht; injection Ht as <-; simpl;
    unfold with_body.
  - destruct (validate_product payload) as [errs | p]; [done |].
    pose proof (creating_cases "product" (product_fields p) BCreated w) as H.
    unfold create_product.
    destruct (store_error w) as [msg |]; [by destruct H as [-> ->] |].
    rewrite H. simpl. split; [done |]. split; [done |]. by eexists.
  - destruct (validate_review payload) as [errs | rv]; [done |].
    pose proof (creating_cases "review" (review_fields rv) BCreated w) as H.
    unfold add_review.
    destruct (store_error w) as [msg |]; [by destruct H as [-> ->] |].
    rewrite H. simpl. split; [done |]. split; [done |]. by eexists.
  - destruct (validate_blogpost payload) as [errs | b]; [done |].
    pose proof (create_blog_cases b w) as H.
    destruct (store_error w) as [msg |]; [by destruct H as [-> ->] |].
    destruct H as [fields ->]. simpl. split; [done |]. split; [done |]. by eexists.
  - destruct (validate_consultation valid_email payload) as [errs | c]; [done |].
    pose proof (creating_cases "consultation" (consultation_fields c)
                  (λ id, BReceived id "received") w) as H.
    unfold book_consultation.
    destruct (store_error w) as [msg |]; [by destruct H as [-> ->] |].
    rewrite H. simpl. split; [done |]. split; [done |]. by eexists.
  - destruct (validate_contact valid_email payload) as [errs | m]; [done |].
    pose proof (creating_cases "contactmessage" (contact_fields m)
                  (λ id, BReceived id "received") w) as H.
    unfold contact.
    destruct (store_error w) as [msg |]; [by destruct H as [-> ->] |].
    rewrite H. simpl. split; [done |]. split; [done |]. by eexists.
Qed.

Lemma create_product_created p w id w1 :
  create_product p w = (Ok (R200 (BCreated id)), w1) →
  id = py_str (env w) (VId (next_id (store w))) ∧
  env w1 = env w ∧
  store w1 = inserted "product" (product_fields p) (store w).
Proof.
  unfold create_product.
  pose proof (creating_cases "product" (product_fields p) BCreated w) as H.
  destruct (store_error w) as [msg |].
  - destruct H as [H _]. intros Hc. rewrite Hc in H. discriminate H.
  - rewrite H. by intros [= <- <-].
Qed.

(** X14.  A created product can be listed.  After [POST /api/products]
    has answered with an identifier, a product list without free-text
    query, unfiltered or filtered by that product's own category, returns
    (while the store answers) an item carrying that identifier as its
    [_id] string, with the title and the category that were posted. *)
Theorem created_product_is_listed p w id w1 category :
  create_product p w = (Ok (R200 (BCreated id)), w1) →
  category = None ∨ category = Some (p_category p) →
  store_error (ensure_seed_data w1).2 = None →
  ∃ items it,
    (list_products None category None w1).1 = Ok (R200 (BItems items)) ∧
    it ∈ items ∧
    it !! "_id" = Some (VStr id) ∧
    it !! "title" = Some (VStr (p_title p)) ∧
    it !! "category" = Some (VStr (p_category p)).
Proof.
  intros Hc Hcat Hs.
  destruct (create_product_created p w id w1 Hc) as (-> & He & Hst).
  set (d := <["_id" := VId (next_id (store w))]> (product_fields p)).
  assert (Hd1 : d ∈ docs_of w1 "product").
  { change (docs_of w1 "product") with (coll_of (store w1) "product").
    rewrite Hst, coll_of_inserted, decide_True by done.
    apply elem_of_app. right. by apply list_elem_of_singleton. }
  assert (Hd : d ∈ docs_of (ensure_seed_data w1).2 "product").
  { destruct (monotone_ensure_seed_data w1) as [_ Hpre].
    destruct (Hpre "product") as [new ->]. apply elem_of_app. by left. }
  assert (Hcatd : str_field d "category" = Some (p_category p)).
  { unfold str_field, d. rewrite lookup_insert_ne by done. unfold product_fields.
    rewrite !lookup_insert_ne by done. by rewrite lookup_insert_eq. }
  destruct (products_filter_exact w1 None category None eq_refl Hs)
    as (items & Hr & Hin).
  exists items, (with_str_id (env w1) d). split; [done |]. split.
  { apply Hin. exists d. split; [done |]. split; [done |]. split.
    - intros v Hv. destruct Hcat as [-> | ->]; [done |].
      destruct (p_category p); [done |]. by injection Hv as <-.
    - by intros v Hv. }
  unfold with_str_id. rewrite lookup_insert_eq, !lookup_insert_ne by done.
  unfold d. rewrite lookup_insert_eq, !lookup_insert_ne by done. simpl.
  rewrite He. split; [done |]. unfold product_fields.
  rewrite lookup_insert_eq. split; [done |].
  rewrite !lookup_insert_ne by done. by rewrite lookup_insert_eq.
Qed.

(** ** Diagnostics, and answers in general *)

Lemma char_count_take n s :
  char_count (take_chars n s) = Nat.min n (char_count s).
Proof.
  revert n. induction s as [| c s IH]; intros n; simpl.
  - by rewrite Nat.min_0_r.
  - destruct (is_continuation c) eqn:E; simpl.
    + by rewrite E, IH.
    + destruct n as [| n]; simpl; [done |]. by rewrite E, IH.
Qed.

Lemma take_chars_prefix n s : ∃ rest, s = String.append (take_chars n s) rest.
Proof.
  revert n. induction s as [| c s IH]; intros n; simpl.
  - by exists "".
  - destruct (is_continuation c).
    + destruct (IH n) as [rest Hr]. exists rest.
      change (String c s = String c (String.append (take_chars n s) rest)).
      by f_equal.
    + destruct n as [| n]; [by eexists |].
      destruct (IH n) as [rest Hr]. exists rest.
      change (String c s = String c (String.append (take_chars n s) rest)).
      by f_equal.
Qed.

Lemma list_collection_names_cases w name :
  db_name (env w) = Some name →
  match fault (env w) (trips w) with
  | None => list_collection_names w = (Ok (elements (dom (colls (store w)))), tick w)
  | Some msg => list_collection_names w = (Raise msg, tick w)
  end.
Proof.
  intros Hn. unfold list_collection_names.
  destruct (fault (env w) (trips w)) as [msg |] eqn:Hf.
  - by erewrite round_trip_fault.
  - by erewrite round_trip_answer.
Qed.

Lemma diagnostics_shape w :
  ∃ report, (test_database w).1 = Ok (R200 (BTest report)).
Proof.
  unfold test_database. destruct (db_name (env w)); [| by eexists].
  destruct (list_collection_names w) as [[names | e] w']; by eexists.
Qed.

(** X15.  The diagnostics endpoint always answers 200 with the backend
    reported as running, and never changes the store.  Without a store
    handle it reports "Not Connected" and sends nothing to the store.
    With a handle it reports the database name and "Connected"; when the
    store then answers it lists the collection names, and when the store
    fails it lists none and reports the store's message cut to its first
    80 characters: a prefix of the message, 80 characters long unless the
    message is shorter. *)
Theorem diagnostics_report w :
  ∃ report,
    (test_database w).1 = Ok (R200 (BTest report)) ∧
    store (test_database w).2 = store w ∧
    backend report = "✅ Running" ∧
    match db_name (env w) with
    | None =>
        (test_database w).2 = w ∧
        database report = "❌ Not Available" ∧
        connection_status report = "Not Connected" ∧
        collections report = []
    | Some name =>
        database_name report = name ∧
        connection_status report = "Connected" ∧
        match fault (env w) (trips w) with
        | None =>
            database report = "✅ Connected & Working" ∧
            collections report = elements (dom (colls (store w)))
        | Some msg =>
            database report =
              String.append "⚠️ Connected but Error: " (take_chars 80 msg) ∧
            char_count (take_chars 80 msg) = Nat.min 80 (char_count msg) ∧
            (∃ rest, msg = String.append (take_chars 80 msg) rest) ∧
            collections report = []
        end
    end.
Proof.
  unfold test_database.
  destruct (db_name (env w)) as [name |] eqn:Hn.
  - pose proof (list_collection_names_cases w name Hn) as H.
    destruct (fault (env w) (trips w)) as [msg |]; rewrite H; simpl.
    + eexists. split; [reflexivity |]. simpl.
      split; [done |]. split; [done |]. split; [done |]. split; [done |].
      split; [done |]. split; [apply char_count_take |].
      split; [apply take_chars_prefix | done].
    + eexists. split; [reflexivity |]. simpl. by repeat split.
  - eexists. split; [reflexivity |]. simpl. by repeat split.
Qed.

Lemma answered_try {A} (m : M A) (h : string → A) w :
  ∃ a, (try_except m (λ e, ret (h e)) w).1 = Ok a.
Proof.
  unfold try_except. destruct (m w) as [[a | e] w']; by eexists.
Qed.

(** X16.  Every request is answered: no handler lets an exception
    escape, whatever the store does.  The endpoints that do not need the
    store ([GET /], [/test], [/api/categories], [/api/services]) always
    answer 200, and a 422 is the answer only to a [POST] or to a
    [GET /api/reviews] whose limit is not an integer. *)
Theorem every_request_is_answered valid_email r w :
  ∃ resp,
    (handle valid_email r w).1 = Ok resp ∧
    (always_ok r = true → ∃ b, resp = R200 b) ∧
    (∀ errs, resp = R422 errs → is_Some (target r) ∨ r = GET_reviews Invalid).
Proof.
  assert (Hlist : ∀ coll filt limit w',
            ∃ resp,
              (try_except
                 (let* items := get_documents coll filt limit in
                  let* items := stringify_ids items in
                  ret (R200 (BItems items)))
                 (λ e, ret (R500 e)) w').1 = Ok resp ∧
              ∀ errs, resp ≠ R422 errs).
  { intros coll filt limit w'. unfold try_except, bind.
    destruct (get_documents coll filt limit w') as [[docs | e] w'']; by eexists. }
  assert (Hpost : ∀ (m : M response) (c : string),
            (∃ resp, (m w).1 = Ok resp) →
            ∃ resp, (m w).1 = Ok resp ∧ (false = true → ∃ b, resp = R200 b) ∧
                    (∀ errs, resp = R422 errs → is_Some (Some c) ∨ r = GET_reviews Invalid)).
  { intros m c [resp H]. exists resp. split; [done |]. split; [done |].
    intros errs _. by left. }
  assert (Hstatic : ∀ b,
            ∃ resp, Ok (R200 b) = Ok resp ∧ (true = true → ∃ b, resp = R200 b) ∧
                    (∀ errs, resp = R422 errs →
                       is_Some (@None string) ∨ r = GET_reviews Invalid)).
  { intros b. exists (R200 b). split; [done |]. split; [by eexists | done]. }
  destruct r; simpl.
  - apply Hstatic.
  - destruct (diagnostics_shape w) as [report ->]. apply Hstatic.
  - apply Hstatic.
  - unfold list_products, list_products_query. rewrite bind_seeding.
    destruct (Hlist "product" (product_filter q category subcategory) None
                (ensure_seed_data w).2) as (resp & -> & Hne).
    exists resp. split; [done |]. split; [done |]. intros errs ->. by destruct (Hne errs).
  - apply (Hpost _ "product"). unfold with_body.
    destruct (validate_product payload) as [errs | p]; [by eexists |].
    apply (answered_try _ R500).
  - unfold with_body. destruct limit as [| | n]; simpl.
    + destruct (Hlist "review" [] (Some 50) w) as (resp & Hr & Hne).
      exists resp. split; [exact Hr |]. split; [done |].
      intros errs ->. by destruct (Hne errs).
    + eexists. split; [reflexivity |]. split; [done |]. intros errs _. by right.
    + destruct (Hlist "review" [] (Some n) w) as (resp & Hr & Hne).
      exists resp. split; [exact Hr |]. split; [done |].
      intros errs ->. by destruct (Hne errs).
  - apply (Hpost _ "review"). unfold with_body.
    destruct (validate_review payload) as [errs | rv]; [by eexists |].
    apply (answered_try _ R500).
  - unfold list_blog. rewrite bind_seeding.
    match goal with
    | |- context [try_except (let* items := get_documents ?c ?f ?l in _) _ ?w'] =>
        destruct (Hlist c f l w') as (resp & Hr & Hne)
    end.
    exists resp. split; [exact Hr |]. split; [done |].
    intros errs ->. by destruct (Hne errs).
  - apply (Hpost _ "blogpost"). unfold with_body.
    destruct (validate_blogpost payload) as [errs | b]; [by eexists |].
    unfold create_blog. apply (answered_try _ R500).
  - apply Hstatic.
  - apply (Hpost _ "consultation"). unfold with_body.
    destruct (validate_consultation valid_email payload) as [errs | c]; [by eexists |].
    apply (answered_try _ R500).
  - apply (Hpost _ "contactmessage"). unfold with_body.
    destruct (validate_contact valid_email payload) as [errs | m]; [by eexists |].
    apply (answered_try _ R500).
Qed.

(** ** The further properties at concrete inputs *)

Lemma negative_price_rejected_witness :
  ∃ errs,
    validate_product negative_price_body = inl errs ∧
    {| loc := "price"; violated := CGe 0 |} ∈ errs ∧
    handle has_at (POST_products negative_price_body) fresh = (Ok (R422 errs), fresh).
Proof.
  apply (negative_price_rejected has_at negative_price_body (-1 # 1) fresh);
    reflexivity.
Defined.

Lemma malformed_email_rejected_witness :
  (∃ errs, validate_consultation has_at bad_email_consultation = inl errs ∧
           {| loc := "email"; violated := CEmail |} ∈ errs ∧
           handle has_at (POST_consultations bad_email_consultation) fresh
             = (Ok (R422 errs), fresh)) ∧
  (∃ errs, validate_contact has_at bad_email_contact = inl errs ∧
           {| loc := "email"; violated := CEmail |} ∈ errs ∧
           handle has_at (POST_contact bad_email_contact) fresh
             = (Ok (R422 errs), fresh)).
Proof.
  assert (H : has_at "ravi.example.com" = None) by reflexivity.
  split.
  - apply (proj1 (malformed_email_rejected has_at "ravi.example.com" fresh H)).
    reflexivity.
  - apply (proj2 (malformed_email_rejected has_at "ravi.example.com" fresh H)).
    reflexivity.
Defined.

Lemma seeding_touches_only_empty_collections_witness :
  docs_of (ensure_seed_data fresh).2 "consultation" = docs_of fresh "consultation" ∧
  docs_of (ensure_seed_data flaky).2 "consultation" = docs_of flaky "consultation".
Proof.
  split.
  - apply (seeding_touches_only_empty_collections fresh "consultation").
    right. repeat split; discriminate.
  - apply (seeding_touches_only_empty_collections flaky "consultation").
    right. repeat split; discriminate.
Defined.

Lemma bounds_are_invariant_witness :
  bounds_kept (store (handle has_at (GET_products None None None) fresh).2).
Proof.
  apply (bounds_are_invariant has_at (GET_products None None None) fresh).
  split; constructor.
Defined.

Lemma seeding_fills_empty_collections_witness :
  docs_of (ensure_seed_data fresh).2 "product" = numbered 1 product_placeholders ∧
  docs_of (ensure_seed_data fresh).2 "review" = numbered 6 review_placeholders ∧
  docs_of (ensure_seed_data fresh).2 "blogpost" = numbered 8 post_placeholders ∧
  next_id (store (ensure_seed_data fresh).2) = 12%N.
Proof.
  assert (H : healthy_from fresh)
    by (split; [by eexists | intros n _; reflexivity]).
  destruct (seeding_fills_empty_collections fresh H)
    as (Hp & Hr & Hb & _ & Hn & _).
  split; [exact Hp |]. split; [exact Hr |]. split; [exact Hb | exact Hn].
Defined.

Lemma seeding_twice_is_seeding_once_witness :
  store (ensure_seed_data (ensure_seed_data fresh).2).2
    = store (ensure_seed_data fresh).2.
Proof.
  apply (seeding_twice_is_seeding_once fresh).
  split; [by eexists | intros n _; reflexivity].
Defined.

Lemma listing_returns_stored_documents_witness :
  (length (items_of (handle has_at (GET_reviews (Given 1%Z)) seeded).1) ≤ 1)%nat.
Proof.
  assert (H : (handle has_at (GET_reviews (Given 1)) seeded).1 =
              Ok (R200 (BItems (items_of (handle has_at (GET_reviews (Given 1)) seeded).1))))
    by (vm_compute; reflexivity).
  apply (proj2 (listing_returns_stored_documents has_at (GET_reviews (Given 1))
                  "review" (Some 1) seeded _ eq_refl H) 1 eq_refl).
  lia.
Defined.

Lemma products_without_query_witness :
  ∃ items,
    (list_products (Some "") (Some "Traditional Products") None fresh).1
      = Ok (R200 (BItems items)) ∧
    ∀ it, it ∈ items ↔
      ∃ d, d ∈ docs_of (ensure_seed_data fresh).2 "product" ∧
           it = with_str_id (env fresh) d ∧
           field_is "category" (Some "Traditional Products") d ∧
           field_is "subcategory" None d.
Proof.
  apply (products_without_query fresh (Some "") (Some "Traditional Products") None).
  - reflexivity.
  - vm_compute. reflexivity.
Defined.

Lemma blog_category_filter_witness :
  ∃ items,
    (list_blog (Some "Herbal Wisdom") fresh).1 = Ok (R200 (BItems items)) ∧
    ∀ it, it ∈ items ↔
      ∃ d, d ∈ docs_of (ensure_seed_data fresh).2 "blogpost" ∧
           it = with_str_id (env fresh) d ∧
           field_is "category" (Some "Herbal Wisdom") d.
Proof.
  apply (blog_category_filter fresh (Some "Herbal Wisdom")).
  vm_compute. reflexivity.
Defined.

Lemma post_stores_one_or_nothing_witness :
  (handle has_at (POST_reviews rating_six) fresh).2 = fresh ∧
  store_error down = Some long_message ∧
  store (handle has_at (POST_reviews rating_five) down).2 = store down.
Proof.
  split.
  - apply (post_stores_one_or_nothing has_at (POST_reviews rating_six) "review" fresh
             eq_refl).
  - apply (post_stores_one_or_nothing has_at (POST_reviews rating_five) "review" down
             eq_refl).
Defined.

Lemma created_product_is_listed_witness :
  ∃ items it,
    (list_products None (Some "Ayurvedic Products") None
       (create_product triphala fresh).2).1 = Ok (R200 (BItems items)) ∧
    it ∈ items ∧
    it !! "_id" = Some (VStr "000000000000000000000001") ∧
    it !! "title" = Some (VStr "Triphala Churna") ∧
    it !! "category" = Some (VStr "Ayurvedic Products").
Proof.
  assert (Hc : create_product triphala fresh =
               (Ok (R200 (BCreated "000000000000000000000001")),
                (create_product triphala fresh).2))
    by (vm_compute; reflexivity).
  assert (Hs : store_error (ensure_seed_data (create_product triphala fresh).2).2 = None)
    by (vm_compute; reflexivity).
  apply (created_product_is_listed triphala fresh "000000000000000000000001"
           (create_product triphala fresh).2 (Some "Ayurvedic Products") Hc
           (or_intror eq_refl) Hs).
Defined.
